(** * etl_file_tools: the constraint model and validation engine of [FileFrame]

    A shallow embedding of [src/etl_file_tools/file_load_dataframe.py].

    The Python class [FileFrame] owns a pandas [DataFrame] and two parallel
    lists: the registered validation closures ([_constraints]) and the
    frozen dataclass instances [_Constraint] rebuilt from the closures' free
    variables ([_constraint_details]).  Methods mutate the instance and may
    raise; they are modelled in a state-and-exception monad in which the
    state reached when an exception is raised stays observable.

    Scope of the model: cells and comparison values are integers, strings
    or null; text is ASCII; the closures are those the five builders
    return; a list of column names handed to a builder is not changed by
    the caller afterwards.  Numbers are kept as exact integers: pandas holds
    an integer column with a null as float64, which is exact up to
    magnitude 2^53, and statements about the value of a number carry that
    bound ([float_exact]). *)

From Stdlib Require Import List String Ascii ZArith Bool Arith Lia Permutation.
Import ListNotations.
Local Open Scope string_scope.
Local Open Scope list_scope.

(** ** Python values, exceptions and [str] methods *)

Module Py.

(** Scalars stored in cells and passed to the builders ([int | str]).
    Floating point values are outside the model. *)
Inductive scalar : Type :=
| SInt (z : Z)
| SStr (s : string).

(** A cell of a table; [None] is the null ([None]/[NaN]) of pandas. *)
Definition cell : Type := option scalar.

Definition scalar_eqb (a b : scalar) : bool :=
  match a, b with
  | SInt x, SInt y => Z.eqb x y
  | SStr x, SStr y => String.eqb x y
  | _, _ => false
  end.

Definition cell_eqb (a b : cell) : bool :=
  match a, b with
  | None, None => true
  | Some x, Some y => scalar_eqb x y
  | _, _ => false
  end.

(** The comparison that a supported check condition denotes. *)
Inductive CheckOp : Type := OpEq | OpGt | OpLt | OpGe | OpLe | OpNe.

(** The messages of the [ValueError]s raised by [FileFrame], one constructor
    per message template, carrying what the template interpolates. *)
Inductive Violation : Type :=
| NotNull (column_name : string)
| PrimaryKeyNull (column_names : list string)
| PrimaryKeyDuplicate (column_names : list string)
| UniqueDuplicate (column_names : list string)
| CheckFailed (column_name : string) (op : CheckOp) (check_value : scalar)
| UnsupportedOperator (check_condition : string)
| DuplicatePrimaryKey
| PrimaryKeyNotNullConflict (column_name : string)
| DuplicateConstraint (constraint_name : string)
                      (column_variable : string + list string).

(** Exceptions: the [ValueError]s above, and the ones pandas and Python
    raise on a missing column, on an ordering between an [int] and a [str],
    and on malformed input to a pandas routine. *)
Inductive Exc : Type :=
| ValueError (v : Violation)
| KeyError (key : string)
| TypeError
| PandasError.

(** Outcome of a call: a value or a raised exception. *)
Inductive result (A : Type) : Type :=
| Ok (a : A)
| Err (e : Exc).
Arguments Ok {A} a.
Arguments Err {A} e.

(** [str.upper] on ASCII text: [a]..[z] go to [A]..[Z]. *)
Definition upper_char (a : ascii) : ascii :=
  let n := nat_of_ascii a in
  if ((97 <=? n) && (n <=? 122))%nat then ascii_of_nat (n - 32) else a.

Fixpoint upper (s : string) : string :=
  match s with
  | EmptyString => EmptyString
  | String a r => String (upper_char a) (upper r)
  end.

(** [str.isspace] on ASCII: tab, line feed, vertical tab, form feed,
    carriage return, the four separators 28..31 and the space. *)
Definition is_space (a : ascii) : bool :=
  let n := nat_of_ascii a in
  (((9 <=? n) && (n <=? 13)) || ((28 <=? n) && (n <=? 32)))%nat.

Fixpoint lstrip (s : string) : string :=
  match s with
  | EmptyString => EmptyString
  | String a r => if is_space a then lstrip r else s
  end.

Definition reverse (s : string) : string :=
  string_of_list_ascii (rev (list_ascii_of_string s)).

Definition rstrip (s : string) : string := reverse (lstrip (reverse s)).

(** [str.strip()] with no argument. *)
Definition strip (s : string) : string := rstrip (lstrip s).

(** A [dict] with [str] keys, in insertion order: [d.get(k)] and
    [d[k] = v] (an existing key keeps its position). *)
Section Dict.
Context {V : Type}.

Fixpoint dict_get (k : string) (d : list (string * V)) : option V :=
  match d with
  | [] => None
  | (k', v) :: r => if String.eqb k k' then Some v else dict_get k r
  end.

Fixpoint dict_set (k : string) (v : V) (d : list (string * V))
  : list (string * V) :=
  match d with
  | [] => [(k, v)]
  | (k', v') :: r =>
      if String.eqb k k' then (k', v) :: r else (k', v') :: dict_set k v r
  end.
End Dict.

End Py.
Import Py.

(** ** The pandas operations the class relies on *)

(** pandas is a library the class calls; what follows states, as
    executable definitions, the behaviour of the calls that the constraint
    closures and the loaders make, on frames whose cells are integers,
    strings or null. *)

Module Pandas.

(** A [DataFrame]: the length of its index and its named columns in order.
    Every column of a frame built by pandas has [index] cells
    ([rectangular]). *)
Record DataFrame : Type := mkDataFrame {
  index : nat;
  columns : list (string * list cell)
}.

Definition rectangular (df : DataFrame) : Prop :=
  Forall (fun kc => List.length (snd kc) = index df) (columns df).

Definition empty_frame : DataFrame := mkDataFrame 0 [].

Definition lookup (k : string) (l : list (string * list cell))
  : option (list cell) := dict_get k l.

Definition has_column (df : DataFrame) (k : string) : bool :=
  match lookup k (columns df) with Some _ => true | None => false end.

(** [pd.DataFrame(data_dict)] on a dict of lists, without further keyword
    arguments: the lists become the columns; lists of different lengths are
    rejected. *)
Definition DataFrame_of_dict (data : list (string * list cell))
  : result DataFrame :=
  let n := match data with [] => 0 | (_, c) :: _ => List.length c end in
  if forallb (fun kc => Nat.eqb (List.length (snd kc)) n) data
  then Ok (mkDataFrame n data)
  else Err PandasError.

(** [df[column_name]]: the column, or [KeyError]. *)
Definition getitem (df : DataFrame) (column_name : string)
  : result (list cell) :=
  match lookup column_name (columns df) with
  | Some c => Ok c
  | None => Err (KeyError column_name)
  end.

(** [df[column_names]] with a list: the sub-frame of those columns on the
    same index, or [KeyError] for the first missing one. *)
Fixpoint select (cols : list (string * list cell)) (column_names : list string)
  : result (list (string * list cell)) :=
  match column_names with
  | [] => Ok []
  | k :: ks =>
      match lookup k cols with
      | None => Err (KeyError k)
      | Some c =>
          match select cols ks with
          | Ok r => Ok ((k, c) :: r)
          | Err e => Err e
          end
      end
  end.

Definition getitem_list (df : DataFrame) (column_names : list string)
  : result DataFrame :=
  match select (columns df) column_names with
  | Ok cs => Ok (mkDataFrame (index df) cs)
  | Err e => Err e
  end.

(** [df[column_name] = series]: replaces the column in place, or appends a
    new one. *)
Definition assign (k : string) (v : list cell) (l : list (string * list cell))
  : list (string * list cell) := dict_set k v l.

Definition setitem (df : DataFrame) (column_name : string) (v : list cell)
  : DataFrame :=
  mkDataFrame (index df) (assign column_name v (columns df)).

(** [series.isnull()] and [series.any()] / [series.all()]. *)
Definition is_null (c : cell) : bool :=
  match c with None => true | Some _ => false end.

Definition isnull (s : list cell) : list bool := map is_null s.

Definition any (s : list bool) : bool := existsb (fun b => b) s.
Definition all (s : list bool) : bool := forallb (fun b => b) s.

(** The cells of row [i] across the columns of a frame. *)
Definition row (df : DataFrame) (i : nat) : list cell :=
  map (fun kc => nth i (snd kc) None) (columns df).

Definition rows (df : DataFrame) : list (list cell) :=
  map (row df) (seq 0 (index df)).

(** [df.isnull().any(axis=1)]: for each row, whether it holds a null. *)
Definition isnull_any_axis1 (df : DataFrame) : list bool :=
  map (existsb is_null) (rows df).

(** Equality of two row keys, cell by cell. *)
Fixpoint key_eqb (a b : list cell) : bool :=
  match a, b with
  | [], [] => true
  | x :: a', y :: b' => cell_eqb x y && key_eqb a' b'
  | _, _ => false
  end.

(** [duplicated(keep='first')] on a sequence of keys: an entry is marked
    when an equal key occurs before it.  Nulls are equal to each other, as
    in pandas. *)
Fixpoint duplicated_from (seen : list (list cell)) (keys : list (list cell))
  : list bool :=
  match keys with
  | [] => []
  | k :: r => existsb (key_eqb k) seen :: duplicated_from (k :: seen) r
  end.

(** [df.duplicated(subset=column_names)].  An empty frame has no
    duplicates; a name that is not a column raises [KeyError]; pandas
    factorises one column per name and its unpacking fails when the subset
    is empty. *)
Definition duplicated (df : DataFrame) (subset : list string)
  : result (list bool) :=
  if (Nat.eqb (index df) 0) || (Nat.eqb (List.length (columns df)) 0) then Ok []
  else
    match getitem_list df subset with
    | Err e => Err e
    | Ok sub =>
        match subset with
        | [] => Err PandasError
        | _ => Ok (duplicated_from [] (rows sub))
        end
    end.

(** Keyword arguments forwarded to [fillna]; of these only [limit] is
    modelled, a positive bound on how many nulls are filled. *)
Record FillKwargs : Type := mkFillKwargs { limit : option positive }.

Definition no_kwargs : FillKwargs := mkFillKwargs None.

Fixpoint fill_upto (n : nat) (value : scalar) (s : list cell) : list cell :=
  match s with
  | [] => []
  | Some x :: r => Some x :: fill_upto n value r
  | None :: r =>
      match n with
      | O => None :: r
      | S m => Some value :: fill_upto m value r
      end
  end.

(** [series.fillna(value=value, **kwargs)]. *)
Definition fillna (s : list cell) (value : scalar) (kwargs : FillKwargs)
  : list cell :=
  match limit kwargs with
  | None => map (fun c => match c with None => Some value | Some x => Some x end) s
  | Some p => fill_upto (Pos.to_nat p) value s
  end.

(** Elementwise comparison of a column with a scalar.  A null compares
    false, except under [!=]; [==] and [!=] between an [int] and a [str] are
    false and true; an ordering between them raises [TypeError]. *)
Definition compare_cell (op : CheckOp) (c : cell) (v : scalar) : result bool :=
  match op, c with
  | OpEq, None => Ok false
  | OpNe, None => Ok true
  | _, None => Ok false
  | OpEq, Some x => Ok (scalar_eqb x v)
  | OpNe, Some x => Ok (negb (scalar_eqb x v))
  | _, Some (SInt a) =>
      match v with
      | SInt b =>
          Ok (match op with
              | OpGt => Z.ltb b a
              | OpLt => Z.ltb a b
              | OpGe => Z.leb b a
              | _ => Z.leb a b
              end)
      | SStr _ => Err TypeError
      end
  | _, Some (SStr a) =>
      match v with
      | SStr b =>
          Ok (match op with
              | OpGt => String.ltb b a
              | OpLt => String.ltb a b
              | OpGe => String.leb b a
              | _ => String.leb a b
              end)
      | SInt _ => Err TypeError
      end
  end.

Fixpoint compare_series (op : CheckOp) (s : list cell) (v : scalar)
  : result (list bool) :=
  match s with
  | [] => Ok []
  | c :: r =>
      match compare_cell op c v with
      | Err e => Err e
      | Ok b =>
          match compare_series op r v with
          | Ok bs => Ok (b :: bs)
          | Err e => Err e
          end
      end
  end.

(** The [keep] argument of [duplicated]: ['first'], ['last'] or [False]. *)
Inductive Keep : Type := keep_first | keep_last | keep_false.

(** [duplicated] on a sequence of keys for each [keep]: all occurrences of
    a repeated key but the first, all but the last, or all of them. *)
Definition duplicated_with (keep : Keep) (keys : list (list cell))
  : list bool :=
  match keep with
  | keep_first => duplicated_from [] keys
  | keep_last => rev (duplicated_from [] (rev keys))
  | keep_false =>
      map (fun p => orb (fst p) (snd p))
          (combine (duplicated_from [] keys)
                   (rev (duplicated_from [] (rev keys))))
  end.

(** [df.duplicated(keep=keep)] over all columns of [df]: empty for an empty
    frame, else one mark per row. *)
Definition duplicated_rows (df : DataFrame) (keep : Keep) : list bool :=
  if (Nat.eqb (index df) 0) || (Nat.eqb (List.length (columns df)) 0) then []
  else duplicated_with keep (rows df).

(** The cells of a column at the marked positions. *)
Fixpoint take_marked (mask : list bool) (col : list cell) : list cell :=
  match mask, col with
  | b :: m, x :: r => if b then x :: take_marked m r else take_marked m r
  | _, _ => []
  end.

(** [df[mask]] with a boolean series: the marked rows, on all columns.  An
    empty series selects no row; any other series that does not have one
    mark per row is rejected. *)
Definition getitem_mask (df : DataFrame) (mask : list bool)
  : result DataFrame :=
  if Nat.eqb (List.length mask) (index df) || Nat.eqb (List.length mask) 0
  then Ok (mkDataFrame (List.length (filter (fun b => b) mask))
             (map (fun kc => (fst kc, take_marked mask (snd kc)))
                  (columns df)))
  else Err PandasError.

End Pandas.
Import Pandas.

(** ** A state-and-exception monad

    A computation on a mutable object of type [S] returns the object as the
    call leaves it, together with the value returned or the exception
    raised.  A raised exception skips the rest of the computation and keeps
    the state reached so far. *)

Module Eff.

Definition M (S A : Type) : Type := S -> S * result A.

Definition ret {S A} (a : A) : M S A := fun s => (s, Ok a).

Definition raise {S A} (e : Exc) : M S A := fun s => (s, Err e).

Definition bind {S A B} (m : M S A) (k : A -> M S B) : M S B :=
  fun s =>
    match m s with
    | (s', Ok a) => k a s'
    | (s', Err e) => (s', Err e)
    end.

Definition get {S} : M S S := fun s => (s, Ok s).

Definition modify {S} (f : S -> S) : M S unit := fun s => (f s, Ok tt).

Definition lift {S A} (r : result A) : M S A := fun s => (s, r).

Definition when {S} (b : bool) (m : M S unit) : M S unit :=
  if b then m else ret tt.

(** [for x in l: body(x)]. *)
Fixpoint for_each {S A} (l : list A) (body : A -> M S unit) : M S unit :=
  match l with
  | [] => ret tt
  | x :: r => bind (body x) (fun _ => for_each r body)
  end.

End Eff.
Import Eff.

Declare Scope eff_scope.
Delimit Scope eff_scope with eff.
Notation "x <- m ;; k" := (bind m (fun x => k))
  (at level 61, m at next level, right associativity) : eff_scope.
Notation "m ;; k" := (bind m (fun _ => k))
  (at level 61, right associativity) : eff_scope.
Local Open Scope eff_scope.

(** ** The constraint closures built by the class methods *)

(** The inner function a builder returns, with the values of its free
    variables. *)
Inductive ClosureCode : Type :=
| not_null_constraint (column_name : string)
| primary_key_constraint (column_names : list string)
| unique_constraint (column_names : list string)
| check_constraint (column_name : string) (check_condition : string)
                   (check_value : scalar)
| default_value_constraint (column_name : string) (default_value : scalar)
                           (kwargs : FillKwargs).

(** A function object: its identity and its code.  Each call of a builder
    creates a new object; [fid] is the identity the call gives it. *)
Record Closure : Type := mkClosure {
  fid : nat;
  code : ClosureCode
}.

(** [f != g] on function objects compares identities. *)
Definition func_ne (f g : Closure) : bool := negb (Nat.eqb (fid f) (fid g)).

(** The builders.  None of them inspects its arguments: each returns the
    inner function closed over them. *)
Definition constraint_not_null (oid : nat) (column_name : string)
  : result Closure :=
  Ok (mkClosure oid (not_null_constraint column_name)).

Definition constraint_primary_key (oid : nat) (column_names : list string)
  : result Closure :=
  Ok (mkClosure oid (primary_key_constraint column_names)).

Definition constraint_unique (oid : nat) (column_names : list string)
  : result Closure :=
  Ok (mkClosure oid (unique_constraint column_names)).

Definition constraint_check (oid : nat) (column_name : string)
    (check_condition : string) (check_value : scalar) : result Closure :=
  Ok (mkClosure oid (check_constraint column_name check_condition check_value)).

Definition constraint_default_value (oid : nat) (column_name : string)
    (default_value : scalar) (kwargs : FillKwargs) : result Closure :=
  Ok (mkClosure oid (default_value_constraint column_name default_value kwargs)).

(** The conditions [check_constraint] recognises. *)
Definition supported_conditions : list string :=
  ["="; ">"; "<"; ">="; "<="; "!="].

(** One branch of [check_constraint]:
    [if not (dataframe[column_name] <op> check_value).all(): raise ...]. *)
Definition check_branch (op : CheckOp) (column_name : string)
    (check_value : scalar) : M DataFrame unit :=
  dataframe <- get ;;
  s <- lift (getitem dataframe column_name) ;;
  b <- lift (compare_series op s check_value) ;;
  when (negb (all b))
       (raise (ValueError (CheckFailed column_name op check_value))).

(** Calling a closure on a frame. *)
Definition call (c : ClosureCode) : M DataFrame unit :=
  match c with
  | not_null_constraint column_name =>
      dataframe <- get ;;
      s <- lift (getitem dataframe column_name) ;;
      when (any (isnull s)) (raise (ValueError (NotNull column_name)))
  | primary_key_constraint column_names =>
      dataframe <- get ;;
      sub <- lift (getitem_list dataframe column_names) ;;
      when (any (isnull_any_axis1 sub))
           (raise (ValueError (PrimaryKeyNull column_names))) ;;
      d <- lift (duplicated dataframe column_names) ;;
      when (any d) (raise (ValueError (PrimaryKeyDuplicate column_names)))
  | unique_constraint column_names =>
      dataframe <- get ;;
      d <- lift (duplicated dataframe column_names) ;;
      when (any d) (raise (ValueError (UniqueDuplicate column_names)))
  | check_constraint column_name check_condition check_value =>
      let cond := strip (upper check_condition) in
      if String.eqb cond "=" then check_branch OpEq column_name check_value
      else if String.eqb cond ">" then check_branch OpGt column_name check_value
      else if String.eqb cond "<" then check_branch OpLt column_name check_value
      else if String.eqb cond ">=" then check_branch OpGe column_name check_value
      else if String.eqb cond "<=" then check_branch OpLe column_name check_value
      else if String.eqb cond "!=" then check_branch OpNe column_name check_value
      else raise (ValueError (UnsupportedOperator check_condition))
  | default_value_constraint column_name default_value kwargs =>
      dataframe <- get ;;
      s <- lift (getitem dataframe column_name) ;;
      modify (fun df => setitem df column_name (fillna s default_value kwargs))
  end.

(** ** The dataclass [_Constraint] *)

Record _Constraint : Type := mk_Constraint {
  constraint_name : string;
  column_names : list string;
  column_name : option string;
  check_condition : option string;
  check_value : option scalar;
  default_value : option scalar
}.

Fixpoint list_eqb (a b : list string) : bool :=
  match a, b with
  | [], [] => true
  | x :: a', y :: b' => String.eqb x y && list_eqb a' b'
  | _, _ => false
  end.

Definition option_eqb {A} (eqb : A -> A -> bool) (a b : option A) : bool :=
  match a, b with
  | None, None => true
  | Some x, Some y => eqb x y
  | _, _ => false
  end.

(** The generated [__eq__]: the tuples of all six fields are compared. *)
Definition _Constraint_eqb (a b : _Constraint) : bool :=
  String.eqb (constraint_name a) (constraint_name b)
  && list_eqb (column_names a) (column_names b)
  && option_eqb String.eqb (column_name a) (column_name b)
  && option_eqb String.eqb (check_condition a) (check_condition b)
  && option_eqb scalar_eqb (check_value a) (check_value b)
  && option_eqb scalar_eqb (default_value a) (default_value b).

(** Values found in closure cells. *)
Inductive PyVal : Type :=
| VStr (s : string)
| VList (l : list string)
| VScalar (x : scalar)
| VKwargs (k : FillKwargs).

(** [func.__name__]. *)
Definition __name__ (c : ClosureCode) : string :=
  match c with
  | not_null_constraint _ => "not_null_constraint"
  | primary_key_constraint _ => "primary_key_constraint"
  | unique_constraint _ => "unique_constraint"
  | check_constraint _ _ _ => "check_constraint"
  | default_value_constraint _ _ _ => "default_value_constraint"
  end.

(** [func.__code__.co_freevars] zipped with the contents of
    [func.__closure__]; free variables are kept in alphabetical order. *)
Definition __closure__ (c : ClosureCode) : list (string * PyVal) :=
  match c with
  | not_null_constraint column_name =>
      [("column_name", VStr column_name)]
  | primary_key_constraint column_names =>
      [("column_names", VList column_names)]
  | unique_constraint column_names =>
      [("column_names", VList column_names)]
  | check_constraint column_name check_condition check_value =>
      [("check_condition", VStr check_condition);
       ("check_value", VScalar check_value);
       ("column_name", VStr column_name)]
  | default_value_constraint column_name default_value kwargs =>
      [("column_name", VStr column_name);
       ("default_value", VScalar default_value);
       ("kwargs", VKwargs kwargs)]
  end.

(** The constructor call of [_Constraint] with [func_details] unpacked as
    keywords: [constraint_name] is required, the other fields default to the
    empty list and [None]; an unknown keyword is a [TypeError]. *)
Fixpoint _Constraint_fields (kw : list (string * PyVal)) (d : _Constraint)
  : result _Constraint :=
  match kw with
  | [] => Ok d
  | (k, v) :: r =>
      match v with
      | VStr s =>
          if String.eqb k "constraint_name" then
            _Constraint_fields r
              (mk_Constraint s (column_names d) (column_name d)
                 (check_condition d) (check_value d) (default_value d))
          else if String.eqb k "column_name" then
            _Constraint_fields r
              (mk_Constraint (constraint_name d) (column_names d) (Some s)
                 (check_condition d) (check_value d) (default_value d))
          else if String.eqb k "check_condition" then
            _Constraint_fields r
              (mk_Constraint (constraint_name d) (column_names d)
                 (column_name d) (Some s) (check_value d) (default_value d))
          else Err TypeError
      | VList l =>
          if String.eqb k "column_names" then
            _Constraint_fields r
              (mk_Constraint (constraint_name d) l (column_name d)
                 (check_condition d) (check_value d) (default_value d))
          else Err TypeError
      | VScalar x =>
          if String.eqb k "check_value" then
            _Constraint_fields r
              (mk_Constraint (constraint_name d) (column_names d)
                 (column_name d) (check_condition d) (Some x) (default_value d))
          else if String.eqb k "default_value" then
            _Constraint_fields r
              (mk_Constraint (constraint_name d) (column_names d)
                 (column_name d) (check_condition d) (check_value d) (Some x))
          else Err TypeError
      | VKwargs _ => Err TypeError
      end
  end.

Definition _Constraint_init (kw : list (string * PyVal)) : result _Constraint :=
  match dict_get "constraint_name" kw with
  | None => Err TypeError
  | Some _ => _Constraint_fields kw (mk_Constraint "" [] None None None None)
  end.

(** The loop of [_get_constraint_closure_function_details] over the closure
    cells: every free variable other than [kwargs] is recorded, together
    with the function's name. *)
Fixpoint collect_details (name : string) (cells : list (string * PyVal))
    (func_details : list (string * PyVal)) : list (string * PyVal) :=
  match cells with
  | [] => func_details
  | (param_name, param_value) :: r =>
      if negb (String.eqb param_name "kwargs") then
        collect_details name r
          (dict_set param_name param_value
             (dict_set "constraint_name" (VStr name) func_details))
      else collect_details name r func_details
  end.

Definition _get_constraint_closure_function_details (func : Closure)
  : result _Constraint :=
  _Constraint_init
    (collect_details (__name__ (code func)) (__closure__ (code func)) []).

(** ** The class [FileFrame] *)

Record FileFrame : Type := mkFileFrame {
  _dataframe : DataFrame;
  _constraints : list Closure;
  _constraint_details : list _Constraint
}.

(** [FileFrame()], called without arguments: an empty frame and no
    constraints. *)
Definition __init__ : FileFrame := mkFileFrame empty_frame [] [].

Definition set_dataframe (df : DataFrame) (self : FileFrame) : FileFrame :=
  mkFileFrame df (_constraints self) (_constraint_details self).

Definition set_constraints (l : list Closure) (self : FileFrame) : FileFrame :=
  mkFileFrame (_dataframe self) l (_constraint_details self).

Definition set_constraint_details (l : list _Constraint) (self : FileFrame)
  : FileFrame :=
  mkFileFrame (_dataframe self) (_constraints self) l.

(** Runs a computation on the frame held by the instance: the closure
    receives the very object [self._dataframe], so what it changes stays
    changed. *)
Definition on_dataframe {A} (m : M DataFrame A) : M FileFrame A :=
  fun self =>
    match m (_dataframe self) with
    | (df, r) => (set_dataframe df self, r)
    end.

(** [input_constraint.column_name in constraint.column_names]. *)
Definition column_name_in (c : option string) (l : list string) : bool :=
  match c with
  | Some k => existsb (String.eqb k) l
  | None => false
  end.

(** [column_name] as an f-string prints it. *)
Definition format_column_name (c : option string) : string :=
  match c with
  | Some k => k
  | None => "None"
  end.

(** [column_names if column_name is None else column_name]. *)
Definition column_variable_of (d : _Constraint) : string + list string :=
  match column_name d with
  | None => inr (column_names d)
  | Some k => inl k
  end.

(** The body of the loop of [add_constraint] for one registered
    [constraint]. *)
Definition add_check (input_constraint constraint : _Constraint)
  : M FileFrame unit :=
  when (String.eqb (constraint_name input_constraint) "primary_key_constraint"
        && String.eqb (constraint_name input_constraint)
                      (constraint_name constraint))
       (raise (ValueError DuplicatePrimaryKey)) ;;
  when (String.eqb (constraint_name input_constraint) "not_null_constraint"
        && String.eqb (constraint_name constraint) "primary_key_constraint"
        && column_name_in (column_name input_constraint)
                          (column_names constraint))
       (raise (ValueError
                 (PrimaryKeyNotNullConflict
                    (format_column_name (column_name input_constraint))))) ;;
  when (_Constraint_eqb input_constraint constraint)
       (raise (ValueError
                 (DuplicateConstraint (constraint_name constraint)
                                      (column_variable_of input_constraint)))).

Definition add_constraint (constraint_func : Closure) : M FileFrame unit :=
  input_constraint <-
    lift (_get_constraint_closure_function_details constraint_func) ;;
  self <- get ;;
  for_each (_constraint_details self) (add_check input_constraint) ;;
  modify (fun self =>
            set_constraints (_constraints self ++ [constraint_func]) self) ;;
  modify (fun self =>
            set_constraint_details
              (_constraint_details self ++ [input_constraint]) self).

Definition remove_constraint (constraint_func : Closure) : M FileFrame unit :=
  input_constraint <-
    lift (_get_constraint_closure_function_details constraint_func) ;;
  modify (fun self =>
            set_constraints
              (filter (fun func => func_ne func constraint_func)
                      (_constraints self)) self) ;;
  modify (fun self =>
            set_constraint_details
              (filter (fun details =>
                         negb (_Constraint_eqb details input_constraint))
                      (_constraint_details self)) self).

Definition _validate_constraints : M FileFrame unit :=
  self <- get ;;
  for_each (_constraints self)
           (fun constraint => on_dataframe (call (code constraint))).

(** [read_dict]: the new frame is stored, then validated. *)
Definition read_dict (data_dict : list (string * list cell))
  : M FileFrame unit :=
  df <- lift (DataFrame_of_dict data_dict) ;;
  modify (set_dataframe df) ;;
  _validate_constraints.

(** [read_excel], [read_csv] and [read_fwf]: [parsed] is what the pandas
    reader returns or raises for the given path and options. *)
Definition read_excel (parsed : result DataFrame) : M FileFrame unit :=
  df <- lift parsed ;;
  modify (set_dataframe df) ;;
  _validate_constraints.

Definition read_csv (parsed : result DataFrame) : M FileFrame unit :=
  df <- lift parsed ;;
  modify (set_dataframe df) ;;
  _validate_constraints.

Definition read_fwf (parsed : result DataFrame) : M FileFrame unit :=
  df <- lift parsed ;;
  modify (set_dataframe df) ;;
  _validate_constraints.

(** [find_duplicate_records(column_names, keep=...)]: of the keyword
    arguments forwarded to [duplicated] only [keep] is modelled; it is
    ['first'] when omitted.  The instance is only read. *)
Definition find_duplicate_records (column_names : list string)
    (kwargs : option Keep) : M FileFrame DataFrame :=
  self <- get ;;
  sub <- lift (getitem_list (_dataframe self) column_names) ;;
  let duplicate_dataframe :=
    duplicated_rows sub (match kwargs with Some k => k | None => keep_first end)
  in
  lift (getitem_mask (_dataframe self) duplicate_dataframe).


(** ** The data of the test suite *)

Definition int_cell (z : Z) : cell := Some (SInt z).
Definition str_cell (x : string) : cell := Some (SStr x).

Definition data : list (string * list cell) :=
  [ ("Id",    [str_cell "001"; str_cell "001"; str_cell "003"; None]);
    ("Name",  [str_cell "Alice"; None; str_cell "Charlie"; str_cell "David"]);
    ("Age",   [int_cell 25; int_cell 30; int_cell 35; int_cell 40]);
    ("City",  [str_cell "Milwaukee"; str_cell "Los Angeles";
               str_cell "Chicago"; str_cell "Houston"]);
    ("Code",  [str_cell "1"; str_cell "1"; str_cell "2"; str_cell "3"]);
    ("Test",  [int_cell 1; int_cell 2; int_cell 3; int_cell 4]);
    ("Test2", [int_cell 1; int_cell 1; int_cell 1; int_cell 1]);
    ("Test3", [int_cell 1; int_cell 1; int_cell 3; int_cell 4]) ]%Z.

(** A scenario of the test suite: method calls on a new instance. *)
Definition scenario (steps : M FileFrame unit) : FileFrame * result unit :=
  steps __init__.

(** What a builder returned, for use in scenarios. *)
Definition built (r : result Closure) : Closure :=
  match r with
  | Ok f => f
  | Err _ => mkClosure 0 (not_null_constraint "")
  end.

(** The descriptor that [add_constraint] stores for a closure, read off the
    closure's code. *)
Definition descriptor (c : ClosureCode) : _Constraint :=
  match c with
  | not_null_constraint k =>
      mk_Constraint "not_null_constraint" [] (Some k) None None None
  | primary_key_constraint ks =>
      mk_Constraint "primary_key_constraint" ks None None None None
  | unique_constraint ks =>
      mk_Constraint "unique_constraint" ks None None None None
  | check_constraint k op v =>
      mk_Constraint "check_constraint" [] (Some k) (Some op) (Some v) None
  | default_value_constraint k v _ =>
      mk_Constraint "default_value_constraint" [] (Some k) None None (Some v)
  end.

(** The loop of [_validate_constraints], seen from the frame it is run on. *)
Definition run_closures (l : list Closure) : M DataFrame unit :=
  for_each l (fun constraint => call (code constraint)).

(** What the four loaders share: store the new frame, then validate. *)
Definition load (parsed : result DataFrame) : M FileFrame unit :=
  df <- lift parsed ;;
  modify (set_dataframe df) ;;
  _validate_constraints.

(** The closures that succeed one after the other, each on the frame the
    previous one left. *)
Inductive runs : list Closure -> DataFrame -> DataFrame -> Prop :=
| runs_nil : forall T, runs [] T T
| runs_cons : forall f l T T1 T2,
    call (code f) T = (T1, Ok tt) -> runs l T1 T2 -> runs (f :: l) T T2.

(** The states an instance can be in: a new instance, and what any method
    call leaves behind, whether it returns or raises. *)
Inductive reachable : FileFrame -> Prop :=
| reach_init : reachable __init__
| reach_add : forall f self,
    reachable self -> reachable (fst (add_constraint f self))
| reach_remove : forall f self,
    reachable self -> reachable (fst (remove_constraint f self))
| reach_read_dict : forall d self,
    reachable self -> reachable (fst (read_dict d self))
| reach_read_excel : forall p self,
    reachable self -> reachable (fst (read_excel p self))
| reach_read_csv : forall p self,
    reachable self -> reachable (fst (read_csv p self))
| reach_read_fwf : forall p self,
    reachable self -> reachable (fst (read_fwf p self)).

Definition is_primary_key (d : _Constraint) : bool :=
  String.eqb (constraint_name d) "primary_key_constraint".

(** A primary-key descriptor whose columns include [c]. *)
Definition covers (c : string) (d : _Constraint) : bool :=
  is_primary_key d && existsb (String.eqb c) (column_names d).

(** A registry in which [not_null] on [City] was added before the primary
    key over [City] and [Test]. *)
Definition registry_not_null_then_primary_key : FileFrame :=
  fst ((add_constraint (built (constraint_not_null 1 "City")) ;;
        add_constraint (built (constraint_primary_key 2 ["City"; "Test"])))
         __init__).

(** The frame that [pd.DataFrame(data)] builds. *)
Definition test_frame : DataFrame := mkDataFrame 4 data.

(** [test_frame] once the nulls of [Id] have been replaced by ['004']. *)
Definition healed_frame : DataFrame :=
  setitem test_frame "Id"
    [str_cell "001"; str_cell "001"; str_cell "003"; str_cell "004"].

(** A registry with a default for [Id] followed by [not_null] on [Name]. *)
Definition registry_default_then_not_null : FileFrame :=
  fst ((add_constraint
          (built (constraint_default_value 1 "Id" (SStr "004") no_kwargs)) ;;
        add_constraint (built (constraint_not_null 2 "Name")))
         __init__).

(** A failed validation of the frame [T] by the closures of [self]: the
    closures before [f] succeeded in order and turned [T] into [T'], [f]
    raised [e] on [T'], and [after] is [self] holding [T']. *)
Definition failed_on (self : FileFrame) (T : DataFrame) (e : Exc)
    (after : FileFrame) : Prop :=
  exists pre f post T',
    _constraints self = pre ++ f :: post /\
    runs pre T T' /\
    call (code f) T' = (T', Err e) /\
    after = set_dataframe T' self.

(** The frame [{Id: [None, None]}]. *)
Definition two_null_ids : DataFrame := mkDataFrame 2 [("Id", [None; None])].

(** The cell of column [c] in row [i]. *)
Definition cell_at (T : DataFrame) (c : string) (i : nat) : cell :=
  match lookup c (columns T) with
  | Some col => nth i col None
  | None => None
  end.

(** Some row has a null in one of the columns [cols]. *)
Definition key_has_null (T : DataFrame) (cols : list string) : Prop :=
  exists i c, i < index T /\ In c cols /\ cell_at T c i = None.

(** The key of row [i]: its cells in the columns [cols]. *)
Definition key (T : DataFrame) (cols : list string) (i : nat) : list cell :=
  map (fun c => cell_at T c i) cols.

(** Two rows agree on every column of [cols]. *)
Definition key_repeats (T : DataFrame) (cols : list string) : Prop :=
  exists i j, i < j /\ j < index T /\
              forall c, In c cols -> cell_at T c i = cell_at T c j.

(** ** The loop of [add_constraint] as a verdict *)

(** What the loop body decides for one registered descriptor. *)
Definition add_verdict (input_constraint constraint : _Constraint)
  : option Exc :=
  if String.eqb (constraint_name input_constraint) "primary_key_constraint"
     && String.eqb (constraint_name input_constraint)
                   (constraint_name constraint)
  then Some (ValueError DuplicatePrimaryKey)
  else if String.eqb (constraint_name input_constraint) "not_null_constraint"
          && String.eqb (constraint_name constraint) "primary_key_constraint"
          && column_name_in (column_name input_constraint)
                            (column_names constraint)
  then Some (ValueError
               (PrimaryKeyNotNullConflict
                  (format_column_name (column_name input_constraint))))
  else if _Constraint_eqb input_constraint constraint
  then Some (ValueError
               (DuplicateConstraint (constraint_name constraint)
                                    (column_variable_of input_constraint)))
  else None.

Fixpoint first_verdict (input_constraint : _Constraint)
    (l : list _Constraint) : option Exc :=
  match l with
  | [] => None
  | c :: r =>
      match add_verdict input_constraint c with
      | Some e => Some e
      | None => first_verdict input_constraint r
      end
  end.

Definition outcome (v : option Exc) : result unit :=
  match v with
  | Some e => Err e
  | None => Ok tt
  end.

(** ** Registries used in scenarios *)

(** A registry holding the primary key over [City] and [Test]. *)
Definition registry_with_primary_key : FileFrame :=
  fst (add_constraint (built (constraint_primary_key 1 ["City"; "Test"]))
                      __init__).

(** A registry holding [unique] over [City] and [Code]. *)
Definition registry_with_unique : FileFrame :=
  fst (add_constraint (built (constraint_unique 1 ["City"; "Code"])) __init__).

(** A registry holding [not_null] on [Id]. *)
Definition registry_not_null_id : FileFrame :=
  fst (add_constraint (built (constraint_not_null 1 "Id")) __init__).

(** ** Numbers that a float64 column holds exactly *)

Definition float_exact (z : Z) : Prop := (Z.abs z <= 2 ^ 53)%Z.


(** ** Registries for the order and the backing of descriptors *)

(** [not_null] on [Id] and [unique] on [City] registered, then another
    closure built like the first one removed: the first closure stays, its
    descriptor is gone. *)
Definition registry_with_lost_descriptor : FileFrame :=
  fst ((add_constraint (built (constraint_not_null 1 "Id")) ;;
        add_constraint (built (constraint_unique 2 ["City"])) ;;
        remove_constraint (built (constraint_not_null 3 "Id")))
         __init__).

(** The same two constraints registered in the two possible orders, on the
    frame of the test suite: a check that passes and a [not_null] that
    raises. *)
Definition check_then_not_null : FileFrame :=
  set_dataframe test_frame
    (fst ((add_constraint (built (constraint_check 1 "Age" ">" (SInt 10))) ;;
           add_constraint (built (constraint_not_null 2 "Id")))
            __init__)).

Definition not_null_then_check : FileFrame :=
  set_dataframe test_frame
    (fst ((add_constraint (built (constraint_not_null 2 "Id")) ;;
           add_constraint (built (constraint_check 1 "Age" ">" (SInt 10))))
            __init__)).

(** ** The order of registered descriptors *)

(** No [not_null] descriptor comes after a primary-key descriptor that
    covers its column. *)
Fixpoint no_not_null_after_key (l : list _Constraint) : Prop :=
  match l with
  | [] => True
  | x :: r =>
      (forall k, covers k x = true ->
                 ~ In (descriptor (not_null_constraint k)) r) /\
      no_not_null_after_key r
  end.

(** ** What validation may change *)



Definition is_default_value (c : ClosureCode) : bool :=
  match c with
  | default_value_constraint _ _ _ => true
  | _ => false
  end.

(** ** Check conditions and what they denote *)

(** A string made of whitespace only. *)
Fixpoint all_space (w : string) : bool :=
  match w with
  | EmptyString => true
  | String a r => is_space a && all_space r
  end.

(** The text of each supported condition. *)
Definition symbol (op : CheckOp) : string :=
  match op with
  | OpEq => "="
  | OpGt => ">"
  | OpLt => "<"
  | OpGe => ">="
  | OpLe => "<="
  | OpNe => "!="
  end.

(** A cell holding the integer [x], or null, compared with the integer
    [b]: what each condition requires of it. *)
Definition satisfies (op : CheckOp) (x : option Z) (b : Z) : Prop :=
  match x with
  | None => op = OpNe
  | Some a =>
      match op with
      | OpEq => a = b
      | OpGt => (a > b)%Z
      | OpLt => (a < b)%Z
      | OpGe => (a >= b)%Z
      | OpLe => (a <= b)%Z
      | OpNe => a <> b
      end
  end.

(** A column of integers and nulls. *)
Definition int_cells (l : list (option Z)) : list cell :=
  map (option_map SInt) l.

(** ** Closures up to the keyword arguments of [fillna] *)

Definition forget_kwargs (c : ClosureCode) : ClosureCode :=
  match c with
  | default_value_constraint k v _ => default_value_constraint k v no_kwargs
  | _ => c
  end.

(** ** Rows that repeat a key *)

(** Row [n] has the key of another row: an earlier one for ['first'], a
    later one for ['last'], any other one for [False]. *)
Definition repeats_at (keep : Keep) (T : DataFrame) (cols : list string)
    (n : nat) : Prop :=
  exists j, j < index T /\ key T cols j = key T cols n /\
            match keep with
            | keep_first => j < n
            | keep_last => n < j
            | keep_false => j <> n
            end.

Definition keep_of (kwargs : option Keep) : Keep :=
  match kwargs with
  | Some k => k
  | None => keep_first
  end.

(** ** Reachable states when identities are those of live objects *)

(** No registered closure shares the identity of [f] unless it is [f]: two
    function objects that are alive at the same time have different
    identities. *)
Definition live_with (f : Closure) (self : FileFrame) : Prop :=
  forall g, In g (_constraints self) -> fid g = fid f -> g = f.

(** The states reached by method calls whose closure arguments are live
    objects. *)
Inductive reachable_live : FileFrame -> Prop :=
| live_init : reachable_live __init__
| live_add : forall f self,
    reachable_live self -> live_with f self ->
    reachable_live (fst (add_constraint f self))
| live_remove : forall f self,
    reachable_live self -> live_with f self ->
    reachable_live (fst (remove_constraint f self))
| live_read_dict : forall d self,
    reachable_live self -> reachable_live (fst (read_dict d self))
| live_read_excel : forall p self,
    reachable_live self -> reachable_live (fst (read_excel p self))
| live_read_csv : forall p self,
    reachable_live self -> reachable_live (fst (read_csv p self))
| live_read_fwf : forall p self,
    reachable_live self -> reachable_live (fst (read_fwf p self)).

(** * Proofs *)

(** ** Equality tests *)

#[local] Arguments String.eqb : simpl never.

(** Evaluates the comparisons between string literals in the goal. *)
Ltac eval_eqb :=
  repeat match goal with
  | |- context [String.eqb ?a ?b] =>
      let v := eval vm_compute in (String.eqb a b) in
      match v with
      | true => change (String.eqb a b) with true
      | false => change (String.eqb a b) with false
      end
  end.

Lemma scalar_eqb_eq (a b : scalar) : scalar_eqb a b = true <-> a = b.
Proof.
  destruct a as [x|x], b as [y|y]; simpl; split; intro H;
    try discriminate; try (inversion H; subst).
  - apply Z.eqb_eq in H. now subst.
  - apply Z.eqb_refl.
  - apply String.eqb_eq in H. now subst.
  - apply String.eqb_refl.
Qed.

Lemma cell_eqb_eq (a b : cell) : cell_eqb a b = true <-> a = b.
Proof.
  destruct a as [x|], b as [y|]; simpl; split; intro H;
    try discriminate; try reflexivity.
  - apply scalar_eqb_eq in H. now subst.
  - inversion H; subst. now apply scalar_eqb_eq.
Qed.

Lemma key_eqb_eq (a b : list cell) : key_eqb a b = true <-> a = b.
Proof.
  revert b. induction a as [|x a IH]; intros [|y b]; simpl; split; intro H;
    try discriminate; try reflexivity.
  - apply andb_true_iff in H as [H1 H2].
    apply cell_eqb_eq in H1. apply IH in H2. now subst.
  - inversion H; subst. apply andb_true_iff. split.
    + now apply cell_eqb_eq.
    + now apply IH.
Qed.

Lemma list_eqb_eq (a b : list string) : list_eqb a b = true <-> a = b.
Proof.
  revert b. induction a as [|x a IH]; intros [|y b]; simpl; split; intro H;
    try discriminate; try reflexivity.
  - apply andb_true_iff in H as [H1 H2].
    apply String.eqb_eq in H1. apply IH in H2. now subst.
  - inversion H; subst. apply andb_true_iff. split.
    + apply String.eqb_refl.
    + now apply IH.
Qed.

Lemma option_eqb_eq {A} (eqb : A -> A -> bool) (a b : option A) :
  (forall x y, eqb x y = true <-> x = y) ->
  option_eqb eqb a b = true <-> a = b.
Proof.
  intro E. destruct a as [x|], b as [y|]; simpl; split; intro H;
    try discriminate; try reflexivity.
  - apply E in H. now subst.
  - inversion H; subst. now apply E.
Qed.

Lemma _Constraint_eqb_eq (a b : _Constraint) :
  _Constraint_eqb a b = true <-> a = b.
Proof.
  unfold _Constraint_eqb. destruct a, b; simpl.
  rewrite !andb_true_iff, String.eqb_eq, list_eqb_eq.
  rewrite !(option_eqb_eq String.eqb) by apply String.eqb_eq.
  rewrite !(option_eqb_eq scalar_eqb) by apply scalar_eqb_eq.
  split.
  - intros [[[[[-> ->] ->] ->] ->] ->]. reflexivity.
  - intro H. inversion H; subst. repeat split.
Qed.

Lemma _Constraint_eqb_refl (a : _Constraint) : _Constraint_eqb a a = true.
Proof. now apply _Constraint_eqb_eq. Qed.

Lemma _Constraint_eqb_neq (a b : _Constraint) :
  _Constraint_eqb a b = false <-> a <> b.
Proof.
  split.
  - intros H E. apply _Constraint_eqb_eq in E. congruence.
  - intro N. destruct (_Constraint_eqb a b) eqn:E; [|reflexivity].
    apply _Constraint_eqb_eq in E. contradiction.
Qed.

(** The introspection of a closure built by the class yields [descriptor]
    of its code; it never raises. *)
Lemma details_descriptor (f : Closure) :
  _get_constraint_closure_function_details f = Ok (descriptor (code f)).
Proof. destruct f as [n []]; reflexivity. Qed.

(** ** [add_constraint] and [remove_constraint] in one step *)

Lemma add_check_verdict (inp c : _Constraint) (self : FileFrame) :
  add_check inp c self = (self, outcome (add_verdict inp c)).
Proof.
  unfold add_check, add_verdict, bind, when, raise, ret.
  destruct (String.eqb (constraint_name inp) "primary_key_constraint"
            && String.eqb (constraint_name inp) (constraint_name c));
    [reflexivity|].
  destruct (String.eqb (constraint_name inp) "not_null_constraint"
            && String.eqb (constraint_name c) "primary_key_constraint"
            && column_name_in (column_name inp) (column_names c));
    [reflexivity|].
  destruct (_Constraint_eqb inp c); reflexivity.
Qed.

Lemma for_each_add_check (inp : _Constraint) (l : list _Constraint)
    (self : FileFrame) :
  for_each l (add_check inp) self = (self, outcome (first_verdict inp l)).
Proof.
  induction l as [|c l IH]; simpl; [reflexivity|].
  unfold bind. rewrite add_check_verdict.
  destruct (add_verdict inp c); simpl; [reflexivity|]. apply IH.
Qed.

(** [add_constraint] in one step: the verdict of the loop decides between
    raising and appending to both lists. *)
Lemma add_constraint_eq (f : Closure) (self : FileFrame) :
  add_constraint f self =
  match first_verdict (descriptor (code f)) (_constraint_details self) with
  | Some e => (self, Err e)
  | None =>
      (mkFileFrame (_dataframe self) (_constraints self ++ [f])
                   (_constraint_details self ++ [descriptor (code f)]),
       Ok tt)
  end.
Proof.
  unfold add_constraint, bind, lift, get, modify.
  rewrite details_descriptor, for_each_add_check.
  destruct (first_verdict _ _); reflexivity.
Qed.

Lemma remove_constraint_eq (f : Closure) (self : FileFrame) :
  remove_constraint f self =
  (mkFileFrame (_dataframe self)
     (filter (fun func => func_ne func f) (_constraints self))
     (filter (fun d => negb (_Constraint_eqb d (descriptor (code f))))
             (_constraint_details self)),
   Ok tt).
Proof.
  unfold remove_constraint, bind, lift, modify.
  rewrite details_descriptor. reflexivity.
Qed.

(** ** Registry: failed insertions *)

(** C9: when [add_constraint] raises, whatever the exception, the instance
    is exactly as before the call: neither [_constraints] nor
    [_constraint_details] has been appended to. *)
Theorem add_constraint_failure_keeps_registry
    (self : FileFrame) (f : Closure) (e : Exc) :
  snd (add_constraint f self) = Err e ->
  _constraints (fst (add_constraint f self)) = _constraints self /\
  _constraint_details (fst (add_constraint f self)) = _constraint_details self /\
  fst (add_constraint f self) = self.
Proof.
  rewrite add_constraint_eq.
  destruct (first_verdict _ _) as [e'|]; simpl; intro H.
  - repeat split.
  - discriminate H.
Qed.

Lemma add_constraint_failure_keeps_registry_witness :
  _constraints
    (fst (add_constraint (built (constraint_not_null 2 "City"))
                         registry_with_primary_key))
  = _constraints registry_with_primary_key /\
  _constraint_details
    (fst (add_constraint (built (constraint_not_null 2 "City"))
                         registry_with_primary_key))
  = _constraint_details registry_with_primary_key /\
  fst (add_constraint (built (constraint_not_null 2 "City"))
                      registry_with_primary_key)
  = registry_with_primary_key.
Proof.
  apply (add_constraint_failure_keeps_registry registry_with_primary_key
           (built (constraint_not_null 2 "City"))
           (ValueError (PrimaryKeyNotNullConflict "City"))).
  reflexivity.
Defined.

(** ** Registry: primary keys *)

Lemma is_primary_key_name (d : _Constraint) :
  is_primary_key d = true <-> constraint_name d = "primary_key_constraint".
Proof. unfold is_primary_key. apply String.eqb_eq. Qed.

Lemma add_verdict_primary_key (ks : list string) (c : _Constraint) :
  add_verdict (descriptor (primary_key_constraint ks)) c =
  if is_primary_key c then Some (ValueError DuplicatePrimaryKey) else None.
Proof.
  unfold add_verdict, is_primary_key. simpl. eval_eqb. simpl.
  rewrite (String.eqb_sym "primary_key_constraint" (constraint_name c)).
  destruct (String.eqb (constraint_name c) "primary_key_constraint") eqn:E;
    [reflexivity|].
  assert (N : _Constraint_eqb
                (mk_Constraint "primary_key_constraint" ks None None None None)
                c = false).
  { apply _Constraint_eqb_neq. intro H. subst c. simpl in E.
    vm_compute in E. discriminate. }
  now rewrite N.
Qed.

Lemma verdict_primary_key (ks : list string) (l : list _Constraint) :
  first_verdict (descriptor (primary_key_constraint ks)) l =
  if existsb is_primary_key l then Some (ValueError DuplicatePrimaryKey)
  else None.
Proof.
  induction l as [|c l IH]; [reflexivity|].
  cbn [first_verdict existsb]. rewrite add_verdict_primary_key.
  destruct (is_primary_key c); [reflexivity|]. exact IH.
Qed.

Lemma filter_filter_length {A} (p q : A -> bool) (l : list A) :
  List.length (filter p (filter q l)) <= List.length (filter p l).
Proof.
  induction l as [|x l IH]; simpl; [lia|].
  destruct (q x); simpl; destruct (p x); simpl; lia.
Qed.

Lemma filter_none {A} (p : A -> bool) (l : list A) :
  existsb p l = false -> filter p l = [].
Proof.
  induction l as [|x l IH]; simpl; [reflexivity|].
  destruct (p x); simpl; [discriminate|]. exact IH.
Qed.

(** ** Validation and loading, step by step *)

Lemma for_each_on_dataframe (l : list Closure) (self : FileFrame) :
  for_each l (fun constraint => on_dataframe (call (code constraint))) self
  = on_dataframe (run_closures l) self.
Proof.
  revert self. induction l as [|f l IH]; intro self.
  - destruct self; reflexivity.
  - cbn [for_each run_closures]. unfold bind at 1. unfold on_dataframe at 1.
    unfold on_dataframe at 2. unfold bind at 1.
    destruct (call (code f) (_dataframe self)) as [T [[]|e]].
    + rewrite IH. unfold on_dataframe. cbn [_dataframe set_dataframe].
      fold (run_closures l).
      destruct (run_closures l T) as [T' r]. reflexivity.
    + reflexivity.
Qed.

Lemma validate_eq (self : FileFrame) :
  _validate_constraints self
  = on_dataframe (run_closures (_constraints self)) self.
Proof.
  unfold _validate_constraints, bind, get. apply for_each_on_dataframe.
Qed.

Lemma validate_single (f : Closure) (self : FileFrame) :
  _constraints self = [f] ->
  _validate_constraints self
  = (set_dataframe (fst (call (code f) (_dataframe self))) self,
     snd (call (code f) (_dataframe self))).
Proof.
  intro H. rewrite validate_eq. unfold on_dataframe, run_closures.
  rewrite H. cbn [for_each]. unfold bind.
  destruct (call (code f) (_dataframe self)) as [T [[]|e]]; reflexivity.
Qed.

Lemma load_eq (parsed : result DataFrame) (self : FileFrame) :
  load parsed self =
  match parsed with
  | Ok T => _validate_constraints (set_dataframe T self)
  | Err e => (self, Err e)
  end.
Proof. unfold load, bind, lift, modify. destruct parsed; reflexivity. Qed.

Lemma read_dict_load (d : list (string * list cell)) :
  read_dict d = load (DataFrame_of_dict d).
Proof. reflexivity. Qed.

Lemma on_dataframe_registry {A} (m : M DataFrame A) (self : FileFrame) :
  _constraints (fst (on_dataframe m self)) = _constraints self /\
  _constraint_details (fst (on_dataframe m self)) = _constraint_details self.
Proof.
  unfold on_dataframe. destruct (m (_dataframe self)) as [T r]. now split.
Qed.

Lemma load_registry (parsed : result DataFrame) (self : FileFrame) :
  _constraints (fst (load parsed self)) = _constraints self /\
  _constraint_details (fst (load parsed self)) = _constraint_details self.
Proof.
  rewrite load_eq. destruct parsed as [T|e]; [|now split].
  rewrite validate_eq.
  destruct (on_dataframe_registry
              (run_closures (_constraints (set_dataframe T self)))
              (set_dataframe T self)) as [H1 H2].
  now rewrite H1, H2.
Qed.

(** An invariant of the descriptor list that insertion and removal
    preserve holds in every reachable state. *)
Lemma reachable_details_ind (P : list _Constraint -> Prop) :
  P [] ->
  (forall f self,
      P (_constraint_details self) ->
      first_verdict (descriptor (code f)) (_constraint_details self) = None ->
      P (_constraint_details self ++ [descriptor (code f)])) ->
  (forall q l, P l -> P (filter q l)) ->
  forall self, reachable self -> P (_constraint_details self).
Proof.
  intros H0 Hadd Hrem self R.
  induction R as [|f self R IH|f self R IH|d self R IH|p self R IH
                  |p self R IH|p self R IH].
  - exact H0.
  - rewrite add_constraint_eq.
    destruct (first_verdict _ _) eqn:E; simpl; [exact IH|].
    now apply Hadd.
  - rewrite remove_constraint_eq. simpl. now apply Hrem.
  - rewrite read_dict_load.
    now rewrite (proj2 (load_registry (DataFrame_of_dict d) self)).
  - change (read_excel p) with (load p).
    now rewrite (proj2 (load_registry p self)).
  - change (read_csv p) with (load p).
    now rewrite (proj2 (load_registry p self)).
  - change (read_fwf p) with (load p).
    now rewrite (proj2 (load_registry p self)).
Qed.

(** C4: once a primary-key descriptor is registered, adding any
    primary-key closure raises the one-primary-key error, whatever its
    columns, and leaves the instance untouched; in every reachable state
    the registry holds at most one primary-key descriptor. *)
Theorem second_primary_key_rejected :
  (forall (self : FileFrame) (f : Closure) (cols : list string),
      code f = primary_key_constraint cols ->
      (exists d, In d (_constraint_details self) /\ is_primary_key d = true) ->
      add_constraint f self = (self, Err (ValueError DuplicatePrimaryKey)))
  /\
  (forall self : FileFrame,
      reachable self ->
      List.length (filter is_primary_key (_constraint_details self)) <= 1).
Proof.
  split.
  - intros self f cols Hc [d [Hin Hpk]].
    rewrite add_constraint_eq, Hc, verdict_primary_key.
    assert (E : existsb is_primary_key (_constraint_details self) = true).
    { apply existsb_exists. now exists d. }
    now rewrite E.
  - apply (reachable_details_ind
             (fun l => List.length (filter is_primary_key l) <= 1)).
    + simpl. lia.
    + intros f self IH V. rewrite filter_app, length_app. simpl.
      destruct (is_primary_key (descriptor (code f))) eqn:E; simpl; [|lia].
      destruct (code f) as [k|ks|ks|k op v|k v kw]; try discriminate E.
      rewrite verdict_primary_key in V.
      destruct (existsb is_primary_key (_constraint_details self)) eqn:X;
        [discriminate V|].
      rewrite (filter_none _ _ X). simpl. lia.
    + intros q l IH.
      pose proof (filter_filter_length is_primary_key q l). lia.
Qed.

Lemma second_primary_key_rejected_witness :
  add_constraint (built (constraint_primary_key 2 ["Id"]))
                 registry_with_primary_key
  = (registry_with_primary_key, Err (ValueError DuplicatePrimaryKey))
  /\
  List.length
    (filter is_primary_key (_constraint_details registry_with_primary_key))
  <= 1.
Proof.
  split.
  - apply (proj1 second_primary_key_rejected registry_with_primary_key
             (built (constraint_primary_key 2 ["Id"])) ["Id"]).
    + reflexivity.
    + exists (descriptor (primary_key_constraint ["City"; "Test"])).
      split; [left; reflexivity | reflexivity].
  - apply (proj2 second_primary_key_rejected).
    apply reach_add. apply reach_init.
Defined.

(** ** Registry: not-null after primary key, and duplicates *)

Lemma add_verdict_not_null (k : string) (c : _Constraint) :
  add_verdict (descriptor (not_null_constraint k)) c =
  if covers k c then Some (ValueError (PrimaryKeyNotNullConflict k))
  else if _Constraint_eqb (descriptor (not_null_constraint k)) c
       then Some (ValueError
                    (DuplicateConstraint "not_null_constraint" (inl k)))
       else None.
Proof.
  unfold add_verdict, covers, is_primary_key. simpl. eval_eqb. simpl.
  destruct (String.eqb (constraint_name c) "primary_key_constraint"
            && existsb (String.eqb k) (column_names c)); [reflexivity|].
  destruct (_Constraint_eqb _ c) eqn:E; [|reflexivity].
  apply _Constraint_eqb_eq in E. subst c. reflexivity.
Qed.

Lemma add_verdict_other (c0 : ClosureCode) (c : _Constraint) :
  __name__ c0 <> "primary_key_constraint" ->
  __name__ c0 <> "not_null_constraint" ->
  add_verdict (descriptor c0) c =
  if _Constraint_eqb (descriptor c0) c
  then Some (ValueError
               (DuplicateConstraint (__name__ c0)
                                    (column_variable_of (descriptor c0))))
  else None.
Proof.
  intros N1 N2. unfold add_verdict.
  destruct c0 as [k|ks|ks|k op v|k v kw]; try (now elim N1); try (now elim N2);
    simpl; eval_eqb; simpl;
    (destruct (_Constraint_eqb _ c) eqn:E; [|reflexivity]);
    apply _Constraint_eqb_eq in E; subst c; reflexivity.
Qed.

Lemma add_verdict_self (c0 : ClosureCode) :
  add_verdict (descriptor c0) (descriptor c0) <> None.
Proof.
  destruct c0 as [k|ks|ks|k op v|k v kw].
  - rewrite add_verdict_not_null. destruct (covers _ _); [discriminate|].
    rewrite _Constraint_eqb_refl. discriminate.
  - rewrite add_verdict_primary_key. discriminate.
  - rewrite add_verdict_other by (simpl; discriminate).
    rewrite _Constraint_eqb_refl. discriminate.
  - rewrite add_verdict_other by (simpl; discriminate).
    rewrite _Constraint_eqb_refl. discriminate.
  - rewrite add_verdict_other by (simpl; discriminate).
    rewrite _Constraint_eqb_refl. discriminate.
Qed.

Lemma first_verdict_some (inp : _Constraint) (l : list _Constraint) (e : Exc) :
  first_verdict inp l = Some e ->
  exists c, In c l /\ add_verdict inp c = Some e.
Proof.
  induction l as [|c l IH]; simpl; [discriminate|].
  destruct (add_verdict inp c) as [e'|] eqn:E.
  - intro H. inversion H; subst. exists c. now split; [left|].
  - intro H. destruct (IH H) as [c' [Hin Hv]]. exists c'. now split; [right|].
Qed.

Lemma first_verdict_in (inp c : _Constraint) (l : list _Constraint) :
  In c l -> add_verdict inp c <> None -> first_verdict inp l <> None.
Proof.
  induction l as [|x l IH]; simpl; [contradiction|].
  intros [->|Hin] N.
  - destruct (add_verdict inp c); [discriminate|contradiction].
  - destruct (add_verdict inp x); [discriminate|]. now apply IH.
Qed.

Lemma first_verdict_none_not_in (c0 : ClosureCode) (l : list _Constraint) :
  first_verdict (descriptor c0) l = None -> ~ In (descriptor c0) l.
Proof.
  intros V Hin. apply (first_verdict_in _ _ _ Hin (add_verdict_self c0)). exact V.
Qed.

Lemma covers_spec (c : string) (d : _Constraint) :
  covers c d = true <->
  constraint_name d = "primary_key_constraint" /\ In c (column_names d).
Proof.
  unfold covers. rewrite andb_true_iff, is_primary_key_name, existsb_exists.
  split.
  - intros [H [x [Hin E]]]. apply String.eqb_eq in E. subst x. now split.
  - intros [H Hin]. split; [exact H|]. exists c. split; [exact Hin|].
    apply String.eqb_refl.
Qed.

Lemma verdict_not_null_before (k : string) (pre post : list _Constraint)
    (pk : _Constraint) :
  covers k pk = true ->
  ~ In (descriptor (not_null_constraint k)) pre ->
  first_verdict (descriptor (not_null_constraint k)) (pre ++ pk :: post)
  = Some (ValueError (PrimaryKeyNotNullConflict k)).
Proof.
  intros Hc Hn. induction pre as [|x pre IH]; cbn [app first_verdict];
    rewrite add_verdict_not_null.
  - now rewrite Hc.
  - destruct (covers k x); [reflexivity|].
    destruct (_Constraint_eqb _ x) eqn:E.
    + apply _Constraint_eqb_eq in E. elim Hn. now left.
    + apply IH. intro H. apply Hn. now right.
Qed.

Lemma verdict_not_null_duplicate (k : string) (pre post : list _Constraint) :
  (forall x, In x pre -> covers k x = false) ->
  first_verdict (descriptor (not_null_constraint k))
                (pre ++ descriptor (not_null_constraint k) :: post)
  = Some (ValueError (DuplicateConstraint "not_null_constraint" (inl k))).
Proof.
  intro Hn. induction pre as [|x pre IH]; cbn [app first_verdict];
    rewrite add_verdict_not_null.
  - assert (C : covers k (descriptor (not_null_constraint k)) = false)
      by reflexivity.
    now rewrite C, _Constraint_eqb_refl.
  - rewrite (Hn x (or_introl eq_refl)).
    destruct (_Constraint_eqb _ x); [reflexivity|].
    apply IH. intros y Hy. apply Hn. now right.
Qed.

(** C5 (amended): with a primary-key descriptor covering [c] registered,
    adding [not_null(c)] raises and leaves the instance untouched.  The
    error is the primary-key conflict, unless an equal [not_null(c)]
    descriptor is met in the registry before any primary-key descriptor
    covering [c], in which case it is the duplicate-constraint error; it is
    the conflict whenever no [not_null(c)] descriptor precedes the primary
    key.  The check runs in that order only: a primary key is accepted
    whenever no primary key is registered yet, whatever [not_null]
    descriptors are. *)
Theorem not_null_after_primary_key_rejected :
  (forall (self : FileFrame) (f : Closure) (c : string) (pk : _Constraint),
      code f = not_null_constraint c ->
      In pk (_constraint_details self) ->
      constraint_name pk = "primary_key_constraint" ->
      In c (column_names pk) ->
      exists v,
        add_constraint f self = (self, Err (ValueError v)) /\
        (v = PrimaryKeyNotNullConflict c \/
         v = DuplicateConstraint "not_null_constraint" (inl c)) /\
        (forall pre post,
            _constraint_details self = pre ++ pk :: post ->
            ~ In (descriptor (not_null_constraint c)) pre ->
            v = PrimaryKeyNotNullConflict c) /\
        (forall pre post,
            _constraint_details self
            = pre ++ descriptor (not_null_constraint c) :: post ->
            (forall x, In x pre ->
                       ~ (constraint_name x = "primary_key_constraint" /\
                          In c (column_names x))) ->
            v = DuplicateConstraint "not_null_constraint" (inl c)))
  /\
  (forall (self : FileFrame) (g : Closure) (cols : list string),
      code g = primary_key_constraint cols ->
      existsb is_primary_key (_constraint_details self) = false ->
      snd (add_constraint g self) = Ok tt /\
      _constraint_details (fst (add_constraint g self))
      = _constraint_details self ++ [descriptor (code g)]).
Proof.
  split.
  - intros self f c pk Hf Hin Hname Hcol.
    assert (Hc : covers c pk = true) by (apply covers_spec; now split).
    assert (Hdup : forall pre post,
               _constraint_details self
               = pre ++ descriptor (not_null_constraint c) :: post ->
               (forall x, In x pre ->
                          ~ (constraint_name x = "primary_key_constraint" /\
                             In c (column_names x))) ->
               first_verdict (descriptor (not_null_constraint c))
                             (_constraint_details self)
               = Some (ValueError
                         (DuplicateConstraint "not_null_constraint" (inl c)))).
    { intros pre post Hd Hn. rewrite Hd. apply verdict_not_null_duplicate.
      intros x Hx. destruct (covers c x) eqn:E; [|reflexivity].
      apply covers_spec in E. elim (Hn x Hx E). }
    rewrite add_constraint_eq, Hf.
    destruct (first_verdict (descriptor (not_null_constraint c))
                (_constraint_details self)) as [e|] eqn:V.
    + destruct (first_verdict_some _ _ _ V) as [x [Hx Hv]].
      rewrite add_verdict_not_null in Hv.
      assert (Hform : e = ValueError (PrimaryKeyNotNullConflict c) \/
                      e = ValueError
                            (DuplicateConstraint "not_null_constraint" (inl c))).
      { destruct (covers c x); [left; congruence|].
        destruct (_Constraint_eqb _ x); [right; congruence|discriminate]. }
      destruct Hform as [-> | ->].
      * exists (PrimaryKeyNotNullConflict c).
        split; [reflexivity|]. split; [now left|]. split; [reflexivity|].
        intros pre post Hd Hn. discriminate (Hdup pre post Hd Hn).
      * exists (DuplicateConstraint "not_null_constraint" (inl c)).
        split; [reflexivity|]. split; [now right|]. split; [|reflexivity].
        intros pre post Hd Hn. rewrite Hd in V.
        rewrite (verdict_not_null_before c pre post pk Hc Hn) in V.
        discriminate V.
    + exfalso.
      apply (first_verdict_in (descriptor (not_null_constraint c)) pk _ Hin);
        [|exact V].
      rewrite add_verdict_not_null, Hc. discriminate.
  - intros self g cols Hg Hno.
    rewrite add_constraint_eq, Hg, verdict_primary_key, Hno. now split.
Qed.

Lemma not_null_after_primary_key_rejected_witness :
  add_constraint (built (constraint_not_null 2 "City"))
                 registry_with_primary_key
  = (registry_with_primary_key,
     Err (ValueError (PrimaryKeyNotNullConflict "City"))) /\
  add_constraint (built (constraint_not_null 3 "City"))
                 registry_not_null_then_primary_key
  = (registry_not_null_then_primary_key,
     Err (ValueError (DuplicateConstraint "not_null_constraint" (inl "City")))).
Proof.
  split.
  - destruct (proj1 not_null_after_primary_key_rejected
                registry_with_primary_key
                (built (constraint_not_null 2 "City")) "City"
                (descriptor (primary_key_constraint ["City"; "Test"]))
                eq_refl (or_introl eq_refl) eq_refl (or_introl eq_refl))
      as [v [E [_ [H _]]]].
    rewrite E. rewrite (H [] [] eq_refl (fun F => F)). reflexivity.
  - destruct (proj1 not_null_after_primary_key_rejected
                registry_not_null_then_primary_key
                (built (constraint_not_null 3 "City")) "City"
                (descriptor (primary_key_constraint ["City"; "Test"]))
                eq_refl (or_intror (or_introl eq_refl)) eq_refl
                (or_introl eq_refl))
      as [v [E [_ [_ H]]]].
    rewrite E.
    rewrite (H [] [descriptor (primary_key_constraint ["City"; "Test"])]
               eq_refl (fun x F => match F with end)).
    reflexivity.
Defined.

(** C5 as stated fails: after [not_null('City')] and then the primary key
    over [City] and [Test] have been registered, a further
    [not_null('City')] is rejected as a duplicate constraint, not as a
    conflict with the primary key. *)
Lemma not_null_again_reports_duplicate :
  reachable registry_not_null_then_primary_key /\
  In (descriptor (primary_key_constraint ["City"; "Test"]))
     (_constraint_details registry_not_null_then_primary_key) /\
  In "City" ["City"; "Test"] /\
  add_constraint (built (constraint_not_null 3 "City"))
                 registry_not_null_then_primary_key
  = (registry_not_null_then_primary_key,
     Err (ValueError (DuplicateConstraint "not_null_constraint" (inl "City"))))
  /\
  snd (add_constraint (built (constraint_not_null 3 "City"))
                      registry_not_null_then_primary_key)
  <> Err (ValueError (PrimaryKeyNotNullConflict "City")).
Proof.
  split; [|split; [|split; [|split]]].
  - change registry_not_null_then_primary_key
      with (fst (add_constraint
                   (built (constraint_primary_key 2 ["City"; "Test"]))
                   (fst (add_constraint (built (constraint_not_null 1 "City"))
                                        __init__)))).
    apply reach_add, reach_add, reach_init.
  - right. left. reflexivity.
  - left. reflexivity.
  - reflexivity.
  - discriminate.
Qed.

Lemma NoDup_snoc {A} (l : list A) (x : A) :
  NoDup l -> ~ In x l -> NoDup (l ++ [x]).
Proof.
  intros H N. induction H as [|y l Hy H IH]; simpl.
  - constructor; [intros []|constructor].
  - constructor.
    + rewrite in_app_iff. intros [Hin|[E|[]]]; [now apply Hy|].
      subst y. apply N. now left.
    + apply IH. intro Hin. apply N. now right.
Qed.

Lemma first_verdict_other (c0 : ClosureCode) (l : list _Constraint) :
  __name__ c0 <> "primary_key_constraint" ->
  __name__ c0 <> "not_null_constraint" ->
  In (descriptor c0) l ->
  first_verdict (descriptor c0) l
  = Some (ValueError
            (DuplicateConstraint (__name__ c0)
                                 (column_variable_of (descriptor c0)))).
Proof.
  intros N1 N2. induction l as [|x l IH]; [intros []|].
  intro Hin. cbn [first_verdict]. rewrite (add_verdict_other c0 x N1 N2).
  destruct (_Constraint_eqb (descriptor c0) x) eqn:E; [reflexivity|].
  apply IH. destruct Hin as [->|Hin]; [|exact Hin].
  rewrite _Constraint_eqb_refl in E. discriminate.
Qed.

Lemma no_not_null_after_key_filter (q : _Constraint -> bool)
    (l : list _Constraint) :
  no_not_null_after_key l -> no_not_null_after_key (filter q l).
Proof.
  induction l as [|x l IH]; [trivial|]. intros [Hx Hl]. cbn [filter].
  destruct (q x); [|now apply IH].
  split; [|now apply IH].
  intros k Hk Hin. apply filter_In in Hin as [Hin _]. exact (Hx k Hk Hin).
Qed.

Lemma no_not_null_after_key_snoc (l : list _Constraint) (c0 : ClosureCode) :
  no_not_null_after_key l ->
  first_verdict (descriptor c0) l = None ->
  no_not_null_after_key (l ++ [descriptor c0]).
Proof.
  induction l as [|x l IH]; cbn [app no_not_null_after_key].
  - intros _ _. split; [intros k _ []|exact I].
  - intros [Hx Hl] V. cbn [first_verdict] in V.
    destruct (add_verdict (descriptor c0) x) eqn:E; [discriminate|].
    split; [|now apply IH].
    intros k Hk Hin. apply in_app_iff in Hin as [Hin|[Hin|[]]].
    + exact (Hx k Hk Hin).
    + rewrite Hin in E. rewrite add_verdict_not_null, Hk in E.
      discriminate E.
Qed.

Lemma reachable_order (self : FileFrame) :
  reachable self -> no_not_null_after_key (_constraint_details self).
Proof.
  apply (reachable_details_ind no_not_null_after_key).
  - exact I.
  - intros f s IH V. now apply no_not_null_after_key_snoc.
  - intros q l IH. now apply no_not_null_after_key_filter.
Qed.

Lemma verdict_not_null_registered (k : string) (l : list _Constraint) :
  no_not_null_after_key l ->
  In (descriptor (not_null_constraint k)) l ->
  first_verdict (descriptor (not_null_constraint k)) l
  = Some (ValueError (DuplicateConstraint "not_null_constraint" (inl k))).
Proof.
  induction l as [|x l IH]; [intros _ []|].
  intros [Hx Hl] Hin. cbn [first_verdict]. rewrite add_verdict_not_null.
  destruct (covers k x) eqn:C.
  - exfalso. destruct Hin as [E|Hin]; [|exact (Hx k C Hin)].
    subst x. discriminate C.
  - destruct (_Constraint_eqb (descriptor (not_null_constraint k)) x) eqn:E;
      [reflexivity|].
    apply IH; [exact Hl|]. destruct Hin as [Hin|Hin]; [|exact Hin].
    subst x. rewrite _Constraint_eqb_refl in E. discriminate E.
Qed.

(** C6 (amended): [__eq__] on descriptors holds exactly when all six fields
    agree.  In every registry reached through the methods, adding a closure
    whose descriptor is already registered raises and leaves the instance
    untouched: with the one-primary-key error when the closure is a primary
    key, and with the duplicate-constraint error for every other kind.
    (On an arbitrary pair of lists the add still raises, though for a
    [not_null] the error may be the primary-key conflict.)  In every
    reachable state no two registered descriptors are equal. *)
Theorem equal_descriptor_rejected :
  (forall a b : _Constraint,
      _Constraint_eqb a b = true <->
      constraint_name a = constraint_name b /\
      column_names a = column_names b /\
      column_name a = column_name b /\
      check_condition a = check_condition b /\
      check_value a = check_value b /\
      default_value a = default_value b)
  /\
  (forall (self : FileFrame) (f : Closure) (d : _Constraint),
      reachable self ->
      _get_constraint_closure_function_details f = Ok d ->
      In d (_constraint_details self) ->
      add_constraint f self
      = (self,
         Err (ValueError
                match code f with
                | primary_key_constraint _ => DuplicatePrimaryKey
                | _ => DuplicateConstraint (constraint_name d)
                                           (column_variable_of d)
                end)))
  /\
  (forall (self : FileFrame) (f : Closure) (d : _Constraint),
      _get_constraint_closure_function_details f = Ok d ->
      In d (_constraint_details self) ->
      exists v,
        add_constraint f self = (self, Err (ValueError v)) /\
        match code f with
        | primary_key_constraint _ => v = DuplicatePrimaryKey
        | not_null_constraint k =>
            v = PrimaryKeyNotNullConflict k \/
            v = DuplicateConstraint "not_null_constraint" (inl k)
        | _ => v = DuplicateConstraint (constraint_name d)
                                       (column_variable_of d)
        end)
  /\
  (forall self : FileFrame,
      reachable self -> NoDup (_constraint_details self)).
Proof.
  split; [|split; [|split]].
  - intros a b. rewrite _Constraint_eqb_eq. split.
    + intros ->. repeat split.
    + destruct a, b; simpl. intros (-> & -> & -> & -> & -> & ->). reflexivity.
  - intros self f d R Hd Hin. rewrite details_descriptor in Hd.
    inversion Hd; subst d. clear Hd.
    rewrite add_constraint_eq.
    destruct (code f) as [k|ks|ks|k op v|k v kw] eqn:C.
    + now rewrite (verdict_not_null_registered k _ (reachable_order self R) Hin).
    + rewrite verdict_primary_key.
      assert (E : existsb is_primary_key (_constraint_details self) = true).
      { apply existsb_exists. eexists. split; [exact Hin|reflexivity]. }
      now rewrite E.
    + rewrite (first_verdict_other (unique_constraint ks));
        [reflexivity|simpl; discriminate|simpl; discriminate|exact Hin].
    + rewrite (first_verdict_other (check_constraint k op v));
        [reflexivity|simpl; discriminate|simpl; discriminate|exact Hin].
    + rewrite (first_verdict_other (default_value_constraint k v kw));
        [reflexivity|simpl; discriminate|simpl; discriminate|exact Hin].
  - intros self f d Hd Hin. rewrite details_descriptor in Hd.
    inversion Hd; subst d. clear Hd.
    rewrite add_constraint_eq.
    destruct (first_verdict (descriptor (code f)) (_constraint_details self))
      as [e|] eqn:V.
    + destruct (first_verdict_some _ _ _ V) as [x [Hx Hv]].
      destruct (code f) as [k|ks|ks|k op v|k v kw] eqn:C.
      * rewrite add_verdict_not_null in Hv.
        destruct (covers k x).
        -- inversion Hv; subst e. eexists. split; [reflexivity|now left].
        -- destruct (_Constraint_eqb _ x); [|discriminate].
           inversion Hv; subst e. eexists. split; [reflexivity|now right].
      * rewrite add_verdict_primary_key in Hv.
        destruct (is_primary_key x); [|discriminate].
        inversion Hv; subst e. eexists. split; reflexivity.
      * rewrite add_verdict_other in Hv by (simpl; discriminate).
        destruct (_Constraint_eqb _ x); [|discriminate].
        inversion Hv; subst e. eexists. split; reflexivity.
      * rewrite add_verdict_other in Hv by (simpl; discriminate).
        destruct (_Constraint_eqb _ x); [|discriminate].
        inversion Hv; subst e. eexists. split; reflexivity.
      * rewrite add_verdict_other in Hv by (simpl; discriminate).
        destruct (_Constraint_eqb _ x); [|discriminate].
        inversion Hv; subst e. eexists. split; reflexivity.
    + exfalso. exact (first_verdict_none_not_in _ _ V Hin).
  - apply (reachable_details_ind (fun l => NoDup l)).
    + constructor.
    + intros f self IH V. apply NoDup_snoc; [exact IH|].
      now apply first_verdict_none_not_in.
    + intros q l IH. now apply NoDup_filter.
Qed.

Lemma reachable_not_null_then_primary_key :
  reachable registry_not_null_then_primary_key.
Proof.
  change registry_not_null_then_primary_key
    with (fst (add_constraint
                 (built (constraint_primary_key 2 ["City"; "Test"]))
                 (fst (add_constraint (built (constraint_not_null 1 "City"))
                                      __init__)))).
  apply reach_add, reach_add, reach_init.
Qed.

Lemma equal_descriptor_rejected_witness :
  add_constraint (built (constraint_unique 2 ["City"; "Code"]))
                 registry_with_unique
  = (registry_with_unique,
     Err (ValueError
            (DuplicateConstraint "unique_constraint" (inr ["City"; "Code"]))))
  /\
  add_constraint (built (constraint_not_null 3 "City"))
                 registry_not_null_then_primary_key
  = (registry_not_null_then_primary_key,
     Err (ValueError
            (DuplicateConstraint "not_null_constraint" (inl "City"))))
  /\
  add_constraint (built (constraint_primary_key 3 ["City"; "Test"]))
                 registry_not_null_then_primary_key
  = (registry_not_null_then_primary_key, Err (ValueError DuplicatePrimaryKey))
  /\
  NoDup (_constraint_details registry_not_null_then_primary_key).
Proof.
  split; [|split; [|split]].
  - apply (proj1 (proj2 equal_descriptor_rejected) registry_with_unique
             (built (constraint_unique 2 ["City"; "Code"]))
             (descriptor (unique_constraint ["City"; "Code"]))).
    + apply reach_add, reach_init.
    + reflexivity.
    + left. reflexivity.
  - apply (proj1 (proj2 equal_descriptor_rejected)
             registry_not_null_then_primary_key
             (built (constraint_not_null 3 "City"))
             (descriptor (not_null_constraint "City"))).
    + exact reachable_not_null_then_primary_key.
    + reflexivity.
    + left. reflexivity.
  - apply (proj1 (proj2 equal_descriptor_rejected)
             registry_not_null_then_primary_key
             (built (constraint_primary_key 3 ["City"; "Test"]))
             (descriptor (primary_key_constraint ["City"; "Test"]))).
    + exact reachable_not_null_then_primary_key.
    + reflexivity.
    + right. left. reflexivity.
  - apply (proj2 (proj2 (proj2 equal_descriptor_rejected))).
    exact reachable_not_null_then_primary_key.
Defined.

(** C6 as stated fails: a primary key equal to the registered one is
    rejected with the one-primary-key error, not with the
    duplicate-constraint error. *)
Lemma equal_primary_key_reports_primary_key_error :
  _get_constraint_closure_function_details
    (built (constraint_primary_key 2 ["City"; "Test"]))
  = Ok (descriptor (primary_key_constraint ["City"; "Test"])) /\
  In (descriptor (primary_key_constraint ["City"; "Test"]))
     (_constraint_details registry_with_primary_key) /\
  add_constraint (built (constraint_primary_key 2 ["City"; "Test"]))
                 registry_with_primary_key
  = (registry_with_primary_key, Err (ValueError DuplicatePrimaryKey)) /\
  snd (add_constraint (built (constraint_primary_key 2 ["City"; "Test"]))
                      registry_with_primary_key)
  <> Err (ValueError
            (DuplicateConstraint "primary_key_constraint"
                                 (inr ["City"; "Test"]))).
Proof.
  split; [|split; [|split]].
  - reflexivity.
  - left. reflexivity.
  - reflexivity.
  - discriminate.
Qed.

(** ** Check conditions *)

Lemma not_in_eqb (x : string) (l : list string) (y : string) :
  ~ In x l -> In y l -> String.eqb x y = false.
Proof.
  intros N Hy. apply String.eqb_neq. intro E. subst y. contradiction.
Qed.

Lemma call_unsupported (c op : string) (v : scalar) (T : DataFrame) :
  ~ In (strip (upper op)) supported_conditions ->
  call (check_constraint c op v) T
  = (T, Err (ValueError (UnsupportedOperator op))).
Proof.
  intro N. unfold call.
  rewrite !(not_in_eqb _ _ _ N) by (simpl; tauto).
  reflexivity.
Qed.

(** C1 (amended): for a condition that is none of the six after
    upper-casing and stripping, the builder does not raise: it returns a
    closure, every call of which raises the unsupported-condition error and
    leaves the frame as it is; the error surfaces when a load validates. *)
Theorem unsupported_condition_deferred
    (oid : nat) (c op : string) (v : scalar) :
  ~ In (strip (upper op)) supported_conditions ->
  exists f,
    constraint_check oid c op v = Ok f /\
    (forall T, call (code f) T
               = (T, Err (ValueError (UnsupportedOperator op)))) /\
    (forall d T,
        DataFrame_of_dict d = Ok T ->
        snd (add_constraint f __init__) = Ok tt /\
        snd (read_dict d (fst (add_constraint f __init__)))
        = Err (ValueError (UnsupportedOperator op))).
Proof.
  intro N. eexists. split; [reflexivity|]. split.
  - intro T. now apply call_unsupported.
  - intros d T Hd. split; [reflexivity|].
    rewrite read_dict_load, load_eq, Hd, validate_eq, add_constraint_eq.
    cbn [first_verdict _constraint_details __init__ fst].
    unfold on_dataframe, run_closures.
    cbn [_constraints _dataframe set_dataframe app for_each code __init__].
    unfold bind. rewrite (call_unsupported c op v T N). reflexivity.
Qed.

Lemma bad_not_supported : ~ In (strip (upper "bad")) supported_conditions.
Proof. vm_compute. intuition discriminate. Qed.

Lemma unsupported_condition_deferred_witness :
  exists f,
    constraint_check 1 "Age" "bad" (SInt 0) = Ok f /\
    (forall T, call (code f) T
               = (T, Err (ValueError (UnsupportedOperator "bad")))) /\
    (forall d T,
        DataFrame_of_dict d = Ok T ->
        snd (add_constraint f __init__) = Ok tt /\
        snd (read_dict d (fst (add_constraint f __init__)))
        = Err (ValueError (UnsupportedOperator "bad"))).
Proof.
  apply (unsupported_condition_deferred 1 "Age" "bad" (SInt 0)).
  vm_compute. intuition discriminate.
Defined.

(** C1 as stated fails: [constraint_check('Age', 'bad', 0)] returns a
    closure instead of raising. *)
Lemma unsupported_condition_builds :
  ~ In (strip (upper "bad")) supported_conditions /\
  constraint_check 1 "Age" "bad" (SInt 0)
  = Ok (mkClosure 1 (check_constraint "Age" "bad" (SInt 0))) /\
  constraint_check 1 "Age" "bad" (SInt 0)
  <> Err (ValueError (UnsupportedOperator "bad")).
Proof.
  split; [exact bad_not_supported|]. split; [reflexivity|discriminate].
Qed.

(** ** Keys, nulls and duplicates *)

Lemma nth_error_map_seq {A} (f : nat -> A) (n j start : nat) :
  nth_error (map f (seq start n)) j
  = if Nat.ltb j n then Some (f (start + j)) else None.
Proof.
  revert j start. induction n as [|n IH]; intros j start; simpl.
  - now destruct j.
  - destruct j as [|j]; simpl.
    + now rewrite Nat.add_0_r.
    + rewrite IH. change (Nat.ltb (S j) (S n)) with (Nat.ltb j n).
      now rewrite Nat.add_succ_r.
Qed.

(** [duplicated] marks something exactly when a key occurs again, or
    occurs among the keys already seen. *)
Lemma any_duplicated_from (seen keys : list (list cell)) :
  any (duplicated_from seen keys) = true <->
  exists j k, nth_error keys j = Some k /\
              (In k seen \/ exists i, i < j /\ nth_error keys i = Some k).
Proof.
  revert seen. induction keys as [|x keys IH]; intro seen.
  - split; [discriminate|]. intros [j [k [H _]]]. now destruct j.
  - cbn [duplicated_from]. unfold any. cbn [existsb]. fold (any (duplicated_from (x :: seen) keys)).
    rewrite orb_true_iff, IH, existsb_exists. split.
    + intros [[y [Hy E]] | [j [k [Hj H]]]].
      * apply key_eqb_eq in E. subst y. exists 0, x. split; [reflexivity|].
        now left.
      * exists (S j), k. split; [exact Hj|].
        destruct H as [[E|Hin]|[i0 [Hi Hn]]].
        -- subst k. right. exists 0. split; [lia|reflexivity].
        -- now left.
        -- right. exists (S i0). split; [lia|exact Hn].
    + intros [j [k [Hj H]]]. destruct j as [|j].
      * simpl in Hj. inversion Hj; subst k.
        destruct H as [Hin|[i0 [Hi _]]]; [|lia].
        left. exists x. split; [exact Hin|]. now apply key_eqb_eq.
      * right. exists j, k. split; [exact Hj|].
        destruct H as [Hin|[i0 [Hi Hn]]]; [left; now right|].
        destruct i0 as [|i0].
        -- simpl in Hn. inversion Hn. left. now left.
        -- right. exists i0. split; [lia|exact Hn].
Qed.

Lemma map_ext_in_iff' {A B} (f g : A -> B) (l : list A) :
  map f l = map g l <-> forall x, In x l -> f x = g x.
Proof.
  induction l as [|a l IH]; simpl.
  - split; [intros _ x []|reflexivity].
  - split.
    + intros H x Hx. inversion H as [[H1 H2]].
      destruct Hx as [E|Hin]; [now subst|]. now apply IH.
    + intro H. f_equal; [apply H; now left|]. apply IH. intros x Hx.
      apply H. now right.
Qed.

Lemma any_duplicated_keys (T : DataFrame) (cols : list string) :
  any (duplicated_from [] (map (key T cols) (seq 0 (index T)))) = true <->
  key_repeats T cols.
Proof.
  rewrite any_duplicated_from. unfold key_repeats. split.
  - intros [j [k [Hj [[]|[i0 [Hi Hn]]]]]].
    rewrite nth_error_map_seq in Hj, Hn. simpl in Hj, Hn.
    destruct (Nat.ltb j (index T)) eqn:Ej; [|discriminate].
    destruct (Nat.ltb i0 (index T)) eqn:Ei; [|discriminate].
    apply Nat.ltb_lt in Ej. inversion Hj. inversion Hn. subst k.
    exists i0, j. repeat split; [exact Hi|exact Ej|].
    apply map_ext_in_iff'. exact H1.
  - intros [i0 [j [Hij [Hj E]]]].
    exists j, (key T cols j). rewrite nth_error_map_seq. simpl.
    apply Nat.ltb_lt in Hj as Ej. rewrite Ej. split; [reflexivity|].
    right. exists i0. split; [exact Hij|].
    rewrite nth_error_map_seq. simpl.
    assert (Ei : Nat.ltb i0 (index T) = true) by (apply Nat.ltb_lt; lia).
    rewrite Ei. f_equal. apply map_ext_in_iff'. exact E.
Qed.

Lemma select_columns (l : list (string * list cell)) (cols : list string) :
  (forall c, In c cols -> lookup c l <> None) ->
  exists sub,
    select l cols = Ok sub /\
    forall n, map (fun kc => nth n (snd kc) None) sub
              = map (fun c => match lookup c l with
                              | Some col => nth n col None
                              | None => None
                              end) cols.
Proof.
  induction cols as [|c cols IH]; intro H.
  - exists []. now split.
  - destruct IH as [sub [Hs Hr]]; [intros x Hx; apply H; now right|].
    cbn [select]. destruct (lookup c l) as [col|] eqn:E.
    + rewrite Hs. exists ((c, col) :: sub). split; [reflexivity|].
      intro n. cbn [map snd]. rewrite Hr, E. reflexivity.
    + exfalso. apply (H c); [now left|exact E].
Qed.

Lemma has_column_lookup (T : DataFrame) (c : string) :
  has_column T c = true <-> lookup c (columns T) <> None.
Proof.
  unfold has_column. destruct (lookup c (columns T)); split;
    intro H; try reflexivity; try discriminate. now elim H.
Qed.

(** [df[cols]] on existing columns: the sub-frame whose rows are the keys. *)
Lemma getitem_list_rows (T : DataFrame) (cols : list string) :
  (forall c, In c cols -> has_column T c = true) ->
  exists sub,
    getitem_list T cols = Ok sub /\
    rows sub = map (key T cols) (seq 0 (index T)).
Proof.
  intro H. destruct (select_columns (columns T) cols) as [sub [Hs Hr]].
  { intros c Hc. apply has_column_lookup. now apply H. }
  unfold getitem_list. rewrite Hs. eexists. split; [reflexivity|].
  unfold rows, row. cbn [index columns]. apply map_ext. intro n.
  rewrite Hr. reflexivity.
Qed.

Lemma any_null_keys (T : DataFrame) (cols : list string) :
  any (map (existsb is_null) (map (key T cols) (seq 0 (index T)))) = true <->
  key_has_null T cols.
Proof.
  unfold any, key_has_null. rewrite existsb_exists. split.
  - intros [b [Hb ->]]. apply in_map_iff in Hb as [k [Hk Hin]].
    apply in_map_iff in Hin as [n [<- Hn]]. apply in_seq in Hn.
    apply existsb_exists in Hk as [x [Hx Hnull]].
    apply in_map_iff in Hx as [c [<- Hc]].
    exists n, c. repeat split; [lia|exact Hc|].
    destruct (cell_at T c n); [discriminate|reflexivity].
  - intros [n [c [Hn [Hc E]]]]. exists true. split; [|reflexivity].
    apply in_map_iff. exists (key T cols n). split.
    + apply existsb_exists. exists None. split; [|reflexivity].
      apply in_map_iff. exists c. now split.
    + apply in_map_iff. exists n. split; [reflexivity|].
      apply in_seq. lia.
Qed.

(** [df.duplicated(subset=cols)] on a non-empty list of existing columns. *)
Lemma duplicated_keys (T : DataFrame) (cols : list string) :
  cols <> [] ->
  (forall c, In c cols -> has_column T c = true) ->
  exists d, duplicated T cols = Ok d /\ (any d = true <-> key_repeats T cols).
Proof.
  intros Hne H. unfold duplicated.
  destruct (Nat.eqb (index T) 0) eqn:E0.
  - apply Nat.eqb_eq in E0. exists []. split; [reflexivity|]. split.
    + discriminate.
    + intros [i0 [j [_ [Hj _]]]]. lia.
  - destruct (Nat.eqb (List.length (columns T)) 0) eqn:E1.
    + exfalso. apply Nat.eqb_eq in E1. apply length_zero_iff_nil in E1.
      destruct cols as [|c cols]; [now apply Hne|].
      specialize (H c (or_introl eq_refl)).
      unfold has_column in H. rewrite E1 in H. discriminate.
    + cbn [orb]. destruct (getitem_list_rows T cols H) as [sub [Hs Hr]].
      rewrite Hs. destruct cols as [|c cols]; [now elim Hne|].
      eexists. split; [reflexivity|]. rewrite Hr. apply any_duplicated_keys.
Qed.

(** ** Primary key and unique closures *)

Lemma rectangular_test_frame : rectangular test_frame.
Proof. unfold rectangular. simpl. repeat constructor. Qed.

(** C7: on a frame that has the (non-empty list of) key columns, the
    primary-key closure leaves the frame as it is; it raises the null error
    whenever some row has a null in a key column, duplicates or not;
    otherwise it raises the duplicate error exactly when two rows agree on
    all key columns, and returns exactly when none do.  Validation by a
    registry holding just this closure has the same outcome. *)
Theorem primary_key_null_before_duplicate
    (T : DataFrame) (cols : list string) :
  rectangular T ->
  cols <> [] ->
  (forall c, In c cols -> has_column T c = true) ->
  fst (call (primary_key_constraint cols) T) = T /\
  (key_has_null T cols ->
   snd (call (primary_key_constraint cols) T)
   = Err (ValueError (PrimaryKeyNull cols))) /\
  (~ key_has_null T cols ->
   (snd (call (primary_key_constraint cols) T)
    = Err (ValueError (PrimaryKeyDuplicate cols)) <-> key_repeats T cols) /\
   (snd (call (primary_key_constraint cols) T) = Ok tt
    <-> ~ key_repeats T cols)) /\
  (forall self f,
      _constraints self = [f] ->
      code f = primary_key_constraint cols ->
      _dataframe self = T ->
      _validate_constraints self
      = (self, snd (call (primary_key_constraint cols) T))).
Proof.
  intros _ Hne H.
  assert (Hfst : fst (call (primary_key_constraint cols) T) = T
                 -> forall self f,
                   _constraints self = [f] ->
                   code f = primary_key_constraint cols ->
                   _dataframe self = T ->
                   _validate_constraints self
                   = (self, snd (call (primary_key_constraint cols) T))).
  { intros F self f Hl Hc HT. rewrite (validate_single f self Hl), Hc, HT, F.
    subst T. now destruct self. }
  cut (fst (call (primary_key_constraint cols) T) = T /\
       (key_has_null T cols ->
        snd (call (primary_key_constraint cols) T)
        = Err (ValueError (PrimaryKeyNull cols))) /\
       (~ key_has_null T cols ->
        (snd (call (primary_key_constraint cols) T)
         = Err (ValueError (PrimaryKeyDuplicate cols)) <-> key_repeats T cols)
        /\
        (snd (call (primary_key_constraint cols) T) = Ok tt
         <-> ~ key_repeats T cols))).
  { intros (A & B & C). repeat split; try assumption; try (now apply C).
    now apply Hfst. }
  clear Hfst.
  destruct (getitem_list_rows T cols H) as [sub [Hs Hr]].
  destruct (duplicated_keys T cols Hne H) as [d [Hd Hdup]].
  pose proof (any_null_keys T cols) as Hnull.
  unfold call, bind, get, lift, when, raise, ret.
  rewrite Hs, Hd. unfold isnull_any_axis1. rewrite Hr.
  destruct (any (map (existsb is_null) (map (key T cols) (seq 0 (index T)))))
    eqn:En.
  - split; [reflexivity|]. split; [reflexivity|].
    intro N. elim N. now apply Hnull.
  - destruct (any d) eqn:Ed; cbn [fst snd].
    + split; [reflexivity|]. split.
      * intro K. apply Hnull in K. discriminate.
      * intros _. split; split; intro X;
          [now apply Hdup|reflexivity|discriminate|].
        elim X. now apply Hdup.
    + split; [reflexivity|]. split.
      * intro K. apply Hnull in K. discriminate.
      * intros _. split; split; intro X;
          [discriminate| |intro K; apply Hdup in K; discriminate|reflexivity].
        apply Hdup in X. discriminate.
Qed.

Lemma primary_key_null_before_duplicate_witness :
  key_has_null test_frame ["Id"] /\
  key_repeats test_frame ["Id"] /\
  snd (call (primary_key_constraint ["Id"]) test_frame)
  = Err (ValueError (PrimaryKeyNull ["Id"])).
Proof.
  assert (K : key_has_null test_frame ["Id"]).
  { exists 3, "Id". split; [simpl; lia|]. split; [now left|reflexivity]. }
  split; [exact K|]. split.
  - exists 0, 1. split; [lia|]. split; [simpl; lia|].
    intros c [<-|[]]. reflexivity.
  - apply (primary_key_null_before_duplicate test_frame ["Id"]).
    + exact rectangular_test_frame.
    + discriminate.
    + intros c [<-|[]]. reflexivity.
    + exact K.
Defined.

(** X6: what [unique_constraint] does on a frame that has the (non-empty
    list of) key columns: it leaves the frame as it is, raises the
    duplicate error exactly when two rows agree on all key columns, a null
    agreeing with a null, and returns exactly when no two rows do. *)
Lemma unique_constraint_repeats (T : DataFrame) (cols : list string) :
  cols <> [] ->
  (forall c, In c cols -> has_column T c = true) ->
  fst (call (unique_constraint cols) T) = T /\
  (snd (call (unique_constraint cols) T)
   = Err (ValueError (UniqueDuplicate cols)) <-> key_repeats T cols) /\
  (snd (call (unique_constraint cols) T) = Ok tt <-> ~ key_repeats T cols).
Proof.
  intros Hne H. destruct (duplicated_keys T cols Hne H) as [d [Hd Hdup]].
  unfold call, bind, get, lift, when, raise, ret. rewrite Hd.
  destruct (any d) eqn:Ed; cbn [fst snd].
  - split; [reflexivity|]. split; split; intro X;
      [now apply Hdup|reflexivity|discriminate|].
    elim X. now apply Hdup.
  - split; [reflexivity|]. split; split; intro X;
      [discriminate| |intro K; apply Hdup in K; discriminate|reflexivity].
    apply Hdup in X. discriminate.
Qed.

(** C2 at its failing input: two rows whose only key cell is null are
    reported as duplicates by the unique closure. *)
Lemma unique_rejects_two_null_rows :
  DataFrame_of_dict [("Id", [None; None])] = Ok two_null_ids /\
  (forall n, n < index two_null_ids -> cell_at two_null_ids "Id" n = None) /\
  call (unique_constraint ["Id"]) two_null_ids
  = (two_null_ids, Err (ValueError (UniqueDuplicate ["Id"]))) /\
  snd (read_dict [("Id", [None; None])]
         (fst (add_constraint (built (constraint_unique 1 ["Id"])) __init__)))
  = Err (ValueError (UniqueDuplicate ["Id"])).
Proof.
  split; [reflexivity|]. split; [|split; reflexivity].
  intros [|[|n]] Hn; [reflexivity|reflexivity|simpl in Hn; lia].
Qed.

(** C3 at its failing input: removing a closure that is not registered but
    was built like a registered one keeps the registered closure and drops
    its descriptor. *)
Lemma remove_twin_drops_descriptor_only :
  func_ne (built (constraint_not_null 1 "Id"))
          (built (constraint_not_null 2 "Id")) = true /\
  remove_constraint
    (built (constraint_not_null 2 "Id"))
    (fst (add_constraint (built (constraint_not_null 1 "Id")) __init__))
  = (mkFileFrame empty_frame [built (constraint_not_null 1 "Id")] [], Ok tt).
Proof. split; reflexivity. Qed.

(** ** Validation order and loading *)

Lemma check_branch_frame (op : CheckOp) (c : string) (v : scalar)
    (T : DataFrame) :
  fst (check_branch op c v T) = T.
Proof.
  unfold check_branch, bind, get, lift, when, raise, ret.
  destruct (getitem T c) as [col|e]; [|reflexivity].
  destruct (compare_series op col v) as [b|e]; [|reflexivity].
  destruct (negb (all b)); reflexivity.
Qed.

(** A closure that raises leaves the frame as it received it. *)
Lemma call_raises_frame (c : ClosureCode) (T T' : DataFrame) (e : Exc) :
  call c T = (T', Err e) -> T' = T.
Proof.
  destruct c as [k|ks|ks|k op v|k v kw]; unfold call.
  - unfold bind, get, lift, when, raise, ret.
    destruct (getitem T k) as [col|e0]; [|congruence].
    destruct (any (isnull col)); congruence.
  - unfold bind, get, lift, when, raise, ret.
    destruct (getitem_list T ks) as [sub|e0]; [|congruence].
    destruct (any (isnull_any_axis1 sub)); [congruence|].
    destruct (duplicated T ks) as [d|e0]; [|congruence].
    destruct (any d); congruence.
  - unfold bind, get, lift, when, raise, ret.
    destruct (duplicated T ks) as [d|e0]; [|congruence].
    destruct (any d); congruence.
  - intro H.
    assert (F : forall o, check_branch o k v T = (T', Err e) -> T' = T).
    { intros o Ho. pose proof (check_branch_frame o k v T) as X.
      rewrite Ho in X. exact X. }
    repeat match type of H with
           | (if ?b then _ else _) _ = _ => destruct b; [now apply F in H|]
           end.
    unfold raise in H. congruence.
  - unfold bind, get, lift, modify.
    destruct (getitem T k) as [col|e0]; congruence.
Qed.

Lemma run_closures_runs (l : list Closure) (T T' : DataFrame) :
  runs l T T' -> run_closures l T = (T', Ok tt).
Proof.
  induction 1 as [T|f l T T1 T2 Hf Hr IH]; [reflexivity|].
  cbn [run_closures for_each]. unfold bind. rewrite Hf. exact IH.
Qed.

Lemma run_closures_raises (pre post : list Closure) (f : Closure)
    (T T' T'' : DataFrame) (e : Exc) :
  runs pre T T' ->
  call (code f) T' = (T'', Err e) ->
  run_closures (pre ++ f :: post) T = (T'', Err e).
Proof.
  intros Hr Hf. induction Hr as [T|g l T T1 T2 Hg Hr IH].
  - cbn [app run_closures for_each]. unfold bind. now rewrite Hf.
  - cbn [app run_closures for_each]. unfold bind. rewrite Hg.
    now apply IH.
Qed.

(** Every run either goes through all closures or stops at a first one
    that raises. *)
Lemma run_closures_cases (l : list Closure) (T : DataFrame) :
  (exists T', runs l T T') \/
  (exists pre f post T' e,
      l = pre ++ f :: post /\ runs pre T T' /\
      call (code f) T' = (T', Err e)).
Proof.
  revert T. induction l as [|f l IH]; intro T.
  - left. exists T. constructor.
  - destruct (call (code f) T) as [T1 [[]|e]] eqn:Hf.
    + destruct (IH T1) as [[T' Hr]|[pre [g [post [T' [e [Hl [Hr Hg]]]]]]]].
      * left. exists T'. now apply runs_cons with T1.
      * right. exists (f :: pre), g, post, T', e. subst l.
        repeat split; [|exact Hg]. now apply runs_cons with T1.
    + right. exists [], f, l, T, e. repeat split; [constructor|].
      rewrite Hf. f_equal. now apply call_raises_frame in Hf.
Qed.

(** C8: [_validate_constraints] calls the registered closures on the held
    frame in list order, which is the order of registration since a
    successful [add_constraint] appends at the end.  If all return, it
    returns and the instance holds the frame as the closures left it.  If
    the closures before [f] return and [f] raises [e], it raises that same
    [e], no later closure is called, and the instance holds the frame as
    the earlier closures left it, their fills included.  One of the two
    always happens. *)
Theorem validation_in_registration_order (self : FileFrame) :
  (forall T',
      runs (_constraints self) (_dataframe self) T' ->
      _validate_constraints self = (set_dataframe T' self, Ok tt))
  /\
  (forall pre f post T' T'' e,
      _constraints self = pre ++ f :: post ->
      runs pre (_dataframe self) T' ->
      call (code f) T' = (T'', Err e) ->
      T'' = T' /\
      _validate_constraints self = (set_dataframe T' self, Err e))
  /\
  ((exists T', runs (_constraints self) (_dataframe self) T') \/
   (exists e,
       snd (_validate_constraints self) = Err e /\
       failed_on self (_dataframe self) e (fst (_validate_constraints self))))
  /\
  (forall f,
      snd (add_constraint f self) = Ok tt ->
      _constraints (fst (add_constraint f self)) = _constraints self ++ [f]).
Proof.
  split; [|split; [|split]]; cycle 3.
  { intro f. rewrite add_constraint_eq.
    destruct (first_verdict _ _); [discriminate|reflexivity]. }
  - intros T' Hr. rewrite validate_eq. unfold on_dataframe.
    now rewrite (run_closures_runs _ _ _ Hr).
  - intros pre f post T' T'' e Hl Hr Hf.
    assert (E : T'' = T') by now apply call_raises_frame in Hf.
    split; [exact E|]. rewrite validate_eq, Hl. unfold on_dataframe.
    rewrite (run_closures_raises pre post f _ T' T'' e Hr Hf). now subst.
  - destruct (run_closures_cases (_constraints self) (_dataframe self))
      as [H|[pre [f [post [T' [e [Hl [Hr Hf]]]]]]]]; [now left|].
    right. exists e.
    assert (V : _validate_constraints self = (set_dataframe T' self, Err e)).
    { rewrite validate_eq. unfold on_dataframe. rewrite Hl.
      now rewrite (run_closures_raises pre post f _ T' T' e Hr Hf). }
    rewrite V. split; [reflexivity|].
    exists pre, f, post, T'. repeat split; assumption.
Qed.

Lemma validation_in_registration_order_witness :
  healed_frame = healed_frame /\
  _validate_constraints (set_dataframe test_frame registry_default_then_not_null)
  = (set_dataframe healed_frame
       (set_dataframe test_frame registry_default_then_not_null),
     Err (ValueError (NotNull "Name"))).
Proof.
  apply (proj1 (proj2 (validation_in_registration_order
                         (set_dataframe test_frame
                                        registry_default_then_not_null)))
           [built (constraint_default_value 1 "Id" (SStr "004") no_kwargs)]
           (built (constraint_not_null 2 "Name")) []
           healed_frame healed_frame (ValueError (NotNull "Name"))).
  - reflexivity.
  - apply runs_cons with healed_frame; [reflexivity|constructor].
  - reflexivity.
Defined.

Lemma load_failed (self : FileFrame) (T : DataFrame) (e : Exc) :
  snd (load (Ok T) self) = Err e ->
  failed_on self T e (fst (load (Ok T) self)).
Proof.
  rewrite load_eq, validate_eq. unfold on_dataframe.
  cbn [_constraints _dataframe set_dataframe].
  destruct (run_closures_cases (_constraints self) T)
    as [[T' Hr]|[pre [f [post [T' [e0 [Hl [Hr Hf]]]]]]]].
  - rewrite (run_closures_runs _ _ _ Hr). discriminate.
  - rewrite Hl.
    rewrite (run_closures_raises pre post f _ T' T' e0 Hr Hf). cbn [fst snd].
    intro E. inversion E; subst e0.
    exists pre, f, post, T'. rewrite <- Hl. repeat split; assumption.
Qed.

Lemma load_raises (self : FileFrame) (T T' T'' : DataFrame) (e : Exc)
    (pre post : list Closure) (f : Closure) :
  _constraints self = pre ++ f :: post ->
  runs pre T T' ->
  call (code f) T' = (T'', Err e) ->
  load (Ok T) self = (set_dataframe T' self, Err e).
Proof.
  intros Hl Hr Hf. rewrite load_eq, validate_eq. unfold on_dataframe.
  cbn [_constraints _dataframe set_dataframe]. rewrite Hl.
  rewrite (run_closures_raises pre post f T T' T'' e Hr Hf).
  apply call_raises_frame in Hf. subst T''. reflexivity.
Qed.

(** C10: when a load has obtained the frame [T] and the validation that
    follows raises [e], the instance holds [T] as the closures before the
    failing one left it, not the frame it held before the call; both lists
    of the registry are as before.  This holds for [read_dict] and for the
    three file readers: whenever the closures before [f] return on [T] in
    order, leaving [T'], and [f] raises [e] on [T'], each loader raises [e]
    and leaves the instance holding [T']. *)
Theorem failed_load_keeps_new_table
    (self : FileFrame) (T : DataFrame) (e : Exc) :
  (forall d,
      DataFrame_of_dict d = Ok T ->
      snd (read_dict d self) = Err e ->
      failed_on self T e (fst (read_dict d self)))
  /\
  (snd (read_excel (Ok T) self) = Err e ->
   failed_on self T e (fst (read_excel (Ok T) self)))
  /\
  (snd (read_csv (Ok T) self) = Err e ->
   failed_on self T e (fst (read_csv (Ok T) self)))
  /\
  (snd (read_fwf (Ok T) self) = Err e ->
   failed_on self T e (fst (read_fwf (Ok T) self)))
  /\
  (forall pre f post T' T'',
      _constraints self = pre ++ f :: post ->
      runs pre T T' ->
      call (code f) T' = (T'', Err e) ->
      (forall d, DataFrame_of_dict d = Ok T ->
                 read_dict d self = (set_dataframe T' self, Err e)) /\
      read_excel (Ok T) self = (set_dataframe T' self, Err e) /\
      read_csv (Ok T) self = (set_dataframe T' self, Err e) /\
      read_fwf (Ok T) self = (set_dataframe T' self, Err e)).
Proof.
  split; [|split; [|split; [|split]]].
  - intros d Hd. rewrite read_dict_load, Hd. apply load_failed.
  - apply load_failed.
  - apply load_failed.
  - apply load_failed.
  - intros pre f post T' T'' Hl Hr Hf.
    pose proof (load_raises self T T' T'' e pre post f Hl Hr Hf) as L.
    split; [|split; [|split]]; try exact L.
    intros d Hd. rewrite read_dict_load, Hd. exact L.
Qed.

Lemma failed_load_keeps_new_table_witness :
  _dataframe registry_not_null_id = empty_frame /\
  read_dict data registry_not_null_id
  = (set_dataframe test_frame registry_not_null_id,
     Err (ValueError (NotNull "Id"))) /\
  read_csv (Ok test_frame) registry_not_null_id
  = (set_dataframe test_frame registry_not_null_id,
     Err (ValueError (NotNull "Id"))) /\
  read_excel (Ok healed_frame)
             (set_dataframe test_frame registry_default_then_not_null)
  = (set_dataframe healed_frame registry_default_then_not_null,
     Err (ValueError (NotNull "Name"))) /\
  failed_on registry_not_null_id test_frame (ValueError (NotNull "Id"))
            (fst (read_fwf (Ok test_frame) registry_not_null_id)).
Proof.
  destruct (proj2 (proj2 (proj2 (proj2
              (failed_load_keeps_new_table registry_not_null_id test_frame
                 (ValueError (NotNull "Id"))))))
              [] (built (constraint_not_null 1 "Id")) [] test_frame test_frame
              eq_refl (runs_nil test_frame) eq_refl)
    as [Hd [_ [Hc _]]].
  split; [reflexivity|]. split; [exact (Hd data eq_refl)|].
  split; [exact Hc|]. split.
  - apply (proj2 (proj2 (proj2 (proj2
             (failed_load_keeps_new_table
                (set_dataframe test_frame registry_default_then_not_null)
                healed_frame (ValueError (NotNull "Name"))))))
             [built (constraint_default_value 1 "Id" (SStr "004") no_kwargs)]
             (built (constraint_not_null 2 "Name")) []
             healed_frame healed_frame eq_refl).
    + apply runs_cons with healed_frame; [reflexivity|constructor].
    + reflexivity.
  - apply (proj1 (proj2 (proj2 (proj2
             (failed_load_keeps_new_table registry_not_null_id test_frame
                (ValueError (NotNull "Id"))))))).
    reflexivity.
Defined.

(** ** Removal *)

Lemma filter_id_iff {A} (p : A -> bool) (l : list A) :
  filter p l = l <-> forall x, In x l -> p x = true.
Proof.
  induction l as [|a l IH]; simpl.
  - split; [intros _ x []|reflexivity].
  - destruct (p a) eqn:E; split.
    + intros H x [<-|Hx]; [exact E|]. apply IH; [|exact Hx].
      now injection H.
    + intro H. f_equal. apply IH. intros x Hx. apply H. now right.
    + intro H. exfalso.
      assert (L : List.length (filter p l) <= List.length l)
        by apply filter_length_le.
      rewrite H in L. simpl in L. lia.
    + intro H. specialize (H a (or_introl eq_refl)). congruence.
Qed.

(** What [remove_constraint] does to each list: it never raises; the
    closure list loses the closures with the identity of [f]; the
    descriptor list loses the descriptors equal to the one rebuilt from
    [f], whether [f] is registered or not. *)
Lemma remove_constraint_lists (f : Closure) (self : FileFrame) :
  snd (remove_constraint f self) = Ok tt /\
  (_constraints (fst (remove_constraint f self)) = _constraints self <->
   forall g, In g (_constraints self) -> fid g <> fid f) /\
  (_constraint_details (fst (remove_constraint f self))
   = _constraint_details self <->
   ~ In (descriptor (code f)) (_constraint_details self)).
Proof.
  rewrite remove_constraint_eq. cbn [fst snd _constraints _constraint_details].
  split; [reflexivity|]. rewrite !filter_id_iff. split; split.
  - intros H g Hg E. specialize (H g Hg). unfold func_ne in H.
    apply Nat.eqb_eq in E. rewrite E in H. discriminate.
  - intros H g Hg. unfold func_ne. apply negb_true_iff, Nat.eqb_neq.
    now apply H.
  - intros H Hin. specialize (H _ Hin).
    rewrite _Constraint_eqb_refl in H. discriminate.
  - intros H d Hd. apply negb_true_iff, _Constraint_eqb_neq.
    intro E. subst d. contradiction.
Qed.

(** ** The test suite, replayed on the model *)

Example test_constraint_not_null :
  snd (scenario (add_constraint (built (constraint_not_null 1 "City")) ;;
                 read_dict data)) = Ok tt.
Proof. reflexivity. Qed.

Example test_constraint_not_null_error :
  snd (scenario (add_constraint (built (constraint_not_null 1 "Id")) ;;
                 read_dict data)) = Err (ValueError (NotNull "Id")).
Proof. reflexivity. Qed.

Example test_constraint_primary_key :
  snd (scenario (add_constraint (built (constraint_primary_key 1 ["City"])) ;;
                 read_dict data)) = Ok tt.
Proof. reflexivity. Qed.

Example test_constraint_primary_key_duplicate_error :
  snd (scenario (add_constraint (built (constraint_primary_key 1 ["Code"])) ;;
                 read_dict data))
  = Err (ValueError (PrimaryKeyDuplicate ["Code"])).
Proof. reflexivity. Qed.

Example test_constraint_primary_key_null_error :
  snd (scenario (add_constraint (built (constraint_primary_key 1 ["Id"])) ;;
                 read_dict data))
  = Err (ValueError (PrimaryKeyNull ["Id"])).
Proof. reflexivity. Qed.

Example test_constraint_unique :
  snd (scenario (add_constraint (built (constraint_unique 1 ["Age"])) ;;
                 read_dict data)) = Ok tt.
Proof. reflexivity. Qed.

Example test_constraint_unique_error :
  snd (scenario (add_constraint (built (constraint_unique 1 ["Id"])) ;;
                 read_dict data))
  = Err (ValueError (UniqueDuplicate ["Id"])).
Proof. reflexivity. Qed.

Example test_constraint_check :
  snd (scenario (add_constraint
                   (built (constraint_check 1 "Age" ">" (SInt 10))) ;;
                 read_dict data)) = Ok tt.
Proof. reflexivity. Qed.

Example test_constraint_check_error_greater :
  snd (scenario (add_constraint
                   (built (constraint_check 1 "Age" ">" (SInt 100))) ;;
                 read_dict data))
  = Err (ValueError (CheckFailed "Age" OpGt (SInt 100))).
Proof. reflexivity. Qed.

Example test_constraint_check_error_not_equal :
  snd (scenario (add_constraint
                   (built (constraint_check 1 "Age" "!=" (SInt 30))) ;;
                 read_dict data))
  = Err (ValueError (CheckFailed "Age" OpNe (SInt 30))).
Proof. reflexivity. Qed.

Example test_constraint_default_value :
  scenario (add_constraint
              (built (constraint_default_value 1 "Id" (SStr "004") no_kwargs)) ;;
            read_dict data)
  = (set_dataframe healed_frame
       (fst (add_constraint
               (built (constraint_default_value 1 "Id" (SStr "004") no_kwargs))
               __init__)),
     Ok tt).
Proof. reflexivity. Qed.

Example test_add_constraint_duplicate_not_null_constraint_error :
  snd (scenario (add_constraint (built (constraint_not_null 1 "Id")) ;;
                 add_constraint (built (constraint_not_null 2 "Id"))))
  = Err (ValueError (DuplicateConstraint "not_null_constraint" (inl "Id"))).
Proof. reflexivity. Qed.

Example test_add_constraint_not_null_constraint_on_primary_key_constraint_error :
  snd (scenario
         (add_constraint (built (constraint_primary_key 1 ["City"; "Test"])) ;;
          add_constraint (built (constraint_not_null 2 "City"))))
  = Err (ValueError (PrimaryKeyNotNullConflict "City")).
Proof. reflexivity. Qed.

Example test_add_constraint_duplicate_check_constraint_error :
  snd (scenario
         (add_constraint (built (constraint_check 1 "Age" ">" (SInt 0))) ;;
          add_constraint (built (constraint_check 2 "Age" ">" (SInt 0)))))
  = Err (ValueError (DuplicateConstraint "check_constraint" (inl "Age"))).
Proof. reflexivity. Qed.

Example test_add_constraint_duplicate_default_value_constraint_error :
  snd (scenario
         (add_constraint
            (built (constraint_default_value 1 "Id" (SStr "004") no_kwargs)) ;;
          add_constraint
            (built (constraint_default_value 2 "Id" (SStr "004")
                      (mkFillKwargs (Some 1%positive))))))
  = Err (ValueError
           (DuplicateConstraint "default_value_constraint" (inl "Id"))).
Proof. reflexivity. Qed.

Example test_remove_constraint :
  fst (scenario
         (add_constraint (built (constraint_primary_key 1 ["City"; "Test"])) ;;
          add_constraint (built (constraint_check 2 "Age" ">" (SInt 10))) ;;
          add_constraint (built (constraint_unique 3 ["Id"])) ;;
          add_constraint (built (constraint_not_null 4 "Id")) ;;
          remove_constraint (built (constraint_primary_key 1 ["City"; "Test"])) ;;
          remove_constraint (built (constraint_check 2 "Age" ">" (SInt 10))) ;;
          remove_constraint (built (constraint_unique 3 ["Id"])) ;;
          remove_constraint (built (constraint_not_null 4 "Id"))))
  = __init__.
Proof. reflexivity. Qed.

Example test_find_duplicate_records_all :
  snd (scenario (read_dict data ;;
                 r <- find_duplicate_records ["Test2"; "Test3"]
                        (Some keep_false) ;;
                 when (negb (Nat.eqb (index r) 2)) (raise TypeError)))
  = Ok tt.
Proof. reflexivity. Qed.

Example test_find_duplicate_records_first :
  snd (scenario (read_dict data ;;
                 r <- find_duplicate_records ["Test2"; "Test3"]
                        (Some keep_first) ;;
                 when (negb (Nat.eqb (index r) 1)) (raise TypeError)))
  = Ok tt.
Proof. reflexivity. Qed.

Example test_find_duplicate_records_last :
  snd (find_duplicate_records ["Test2"; "Test3"] (Some keep_last)
         (fst (scenario (read_dict data))))
  = Ok (mkDataFrame 1
          [ ("Id", [str_cell "001"]); ("Name", [str_cell "Alice"]);
            ("Age", [int_cell 25]); ("City", [str_cell "Milwaukee"]);
            ("Code", [str_cell "1"]); ("Test", [int_cell 1]);
            ("Test2", [int_cell 1]); ("Test3", [int_cell 1]) ]).
Proof. reflexivity. Qed.

(** ** Closures on frames: outcomes and effects *)

Lemma existsb_is_null (col : list cell) :
  existsb is_null col = true <-> In None col.
Proof.
  rewrite existsb_exists. split.
  - intros [[x|] [Hin H]]; [discriminate|exact Hin].
  - intro H. exists None. now split.
Qed.

Lemma any_isnull (col : list cell) : any (isnull col) = existsb is_null col.
Proof.
  unfold any, isnull. induction col as [|x col IH]; simpl; [reflexivity|].
  now rewrite IH.
Qed.

(** X1: the not-null closure never changes the frame; on a frame without
    the column it raises [KeyError]; otherwise it raises the not-null error
    exactly when the column holds a null, and returns exactly when it holds
    none. *)
Theorem not_null_constraint_outcome (T : DataFrame) (c : string) :
  fst (call (not_null_constraint c) T) = T /\
  (has_column T c = false ->
   snd (call (not_null_constraint c) T) = Err (KeyError c)) /\
  (forall col,
      lookup c (columns T) = Some col ->
      (snd (call (not_null_constraint c) T) = Err (ValueError (NotNull c))
       <-> In None col) /\
      (snd (call (not_null_constraint c) T) = Ok tt <-> ~ In None col)).
Proof.
  unfold call, bind, get, lift, when, raise, ret, getitem, has_column.
  destruct (lookup c (columns T)) as [col|] eqn:E.
  - rewrite any_isnull.
    destruct (existsb is_null col) eqn:N.
    + split; [reflexivity|]. split; [discriminate|].
      intros col' H. inversion H; subst col'.
      apply existsb_is_null in N. repeat split; try (intro; assumption).
      * discriminate.
      * intro X. contradiction.
    + split; [reflexivity|]. split; [discriminate|].
      intros col' H. inversion H; subst col'.
      assert (NN : ~ In None col).
      { intro X. apply existsb_is_null in X. congruence. }
      repeat split; try (intro; assumption); try discriminate.
      intro X. contradiction.
  - split; [reflexivity|]. split; [reflexivity|]. intros col H. discriminate.
Qed.

Lemma not_null_constraint_outcome_witness :
  snd (call (not_null_constraint "Id") test_frame)
  = Err (ValueError (NotNull "Id")) /\
  snd (call (not_null_constraint "Zip") test_frame) = Err (KeyError "Zip").
Proof.
  split.
  - apply (proj1 (proj2 (proj2 (not_null_constraint_outcome test_frame "Id"))
                    _ eq_refl)).
    simpl. tauto.
  - apply (proj1 (proj2 (not_null_constraint_outcome test_frame "Zip"))).
    reflexivity.
Defined.

(** Lookup after assignment in an insertion-ordered dict. *)
Lemma dict_get_set_same {V} (k : string) (v : V) (d : list (string * V)) :
  dict_get k (dict_set k v d) = Some v.
Proof.
  induction d as [|[k' v'] d IH]; simpl.
  - now rewrite String.eqb_refl.
  - destruct (String.eqb k k') eqn:E; simpl; rewrite E; [reflexivity|exact IH].
Qed.



Lemma dict_set_same_value {V} (k : string) (v : V) (d : list (string * V)) :
  dict_get k d = Some v -> dict_set k v d = d.
Proof.
  induction d as [|[k0 v0] d IH]; simpl; [discriminate|].
  destruct (String.eqb k k0) eqn:E.
  - intro H. now inversion H.
  - intro H. now rewrite IH.
Qed.



Lemma fillna_no_limit (col : list cell) (v : scalar) :
  ~ In None (fillna col v no_kwargs) /\
  fillna (fillna col v no_kwargs) v no_kwargs = fillna col v no_kwargs /\
  forall n, nth_error col n = Some None ->
            nth_error (fillna col v no_kwargs) n = Some (Some v).
Proof.
  unfold fillna. simpl. split; [|split].
  - intro H. apply in_map_iff in H as [[x|] [E _]]; discriminate.
  - rewrite map_map. apply map_ext. now intros [x|].
  - intros n H.
    apply (map_nth_error
             (fun c : cell => match c with None => Some v | Some x => Some x end)
             n col H).
Qed.




(** X3: run after the default-value closure for the same column (no
    [limit]), the not-null closure returns; and a second run of the
    default-value closure changes nothing more. *)
Theorem default_value_then_not_null
    (T : DataFrame) (c : string) (v : scalar) :
  has_column T c = true ->
  exists T',
    call (default_value_constraint c v no_kwargs) T = (T', Ok tt) /\
    call (not_null_constraint c) T' = (T', Ok tt) /\
    call (default_value_constraint c v no_kwargs) T' = (T', Ok tt).
Proof.
  unfold has_column. destruct (lookup c (columns T)) as [col|] eqn:E;
    [intros _|discriminate].
  exists (setitem T c (fillna col v no_kwargs)).
  assert (L : lookup c (columns (setitem T c (fillna col v no_kwargs)))
              = Some (fillna col v no_kwargs)).
  { unfold setitem, assign, lookup. cbn [columns]. apply dict_get_set_same. }
  destruct (fillna_no_limit col v) as (A & B & _).
  split; [|split].
  - unfold call, bind, get, lift, modify, getitem. now rewrite E.
  - unfold call, bind, get, lift, when, raise, ret, getitem. rewrite L.
    rewrite any_isnull.
    destruct (existsb is_null (fillna col v no_kwargs)) eqn:N; [|reflexivity].
    apply existsb_is_null in N. contradiction.
  - unfold call, bind, get, lift, modify, getitem. rewrite L, B.
    f_equal. unfold setitem at 1, assign. cbn [index columns].
    unfold lookup in L. rewrite (dict_set_same_value _ _ _ L).
    reflexivity.
Qed.

Lemma default_value_then_not_null_witness :
  exists T',
    call (default_value_constraint "Name" (SStr "?") no_kwargs) test_frame
    = (T', Ok tt) /\
    call (not_null_constraint "Name") T' = (T', Ok tt) /\
    call (default_value_constraint "Name" (SStr "?") no_kwargs) T'
    = (T', Ok tt).
Proof.
  apply (default_value_then_not_null test_frame "Name" (SStr "?")).
  reflexivity.
Defined.

(** ** What validation never does *)

Lemma call_keeps_frame (c : ClosureCode) (T : DataFrame) :
  is_default_value c = false -> fst (call c T) = T.
Proof.
  destruct c as [k|ks|ks|k op v|k v kw]; intro H; try discriminate H.
  - unfold call, bind, get, lift, when, raise, ret.
    destruct (getitem T k) as [col|e]; [|reflexivity].
    destruct (any (isnull col)); reflexivity.
  - unfold call, bind, get, lift, when, raise, ret.
    destruct (getitem_list T ks) as [sub|e]; [|reflexivity].
    destruct (any (isnull_any_axis1 sub)); [reflexivity|].
    destruct (duplicated T ks) as [d|e]; [|reflexivity].
    destruct (any d); reflexivity.
  - unfold call, bind, get, lift, when, raise, ret.
    destruct (duplicated T ks) as [d|e]; [|reflexivity].
    destruct (any d); reflexivity.
  - unfold call.
    repeat match goal with
           | |- fst ((if ?b then _ else _) _) = _ =>
               destruct b; [apply check_branch_frame|]
           end.
    reflexivity.
Qed.

Lemma run_closures_keeps_frame (l : list Closure) (T : DataFrame) :
  forallb (fun f => negb (is_default_value (code f))) l = true ->
  fst (run_closures l T) = T.
Proof.
  induction l as [|f l IH]; [reflexivity|].
  cbn [forallb]. intro H. apply andb_true_iff in H as [Hf Hl].
  apply negb_true_iff in Hf.
  cbn [run_closures for_each]. unfold bind.
  pose proof (call_keeps_frame (code f) T Hf) as K.
  destruct (call (code f) T) as [T1 [[]|e]]; simpl in K; subst T1.
  - now apply IH.
  - reflexivity.
Qed.

(** X4: a closure other than a default-value closure never changes the
    frame it is called on, whether it returns or raises; validation by a
    registry without default-value closures leaves the instance exactly as
    it was. *)
Theorem validation_without_defaults_changes_nothing :
  (forall (c : ClosureCode) (T : DataFrame),
      is_default_value c = false -> fst (call c T) = T)
  /\
  (forall self : FileFrame,
      forallb (fun f => negb (is_default_value (code f))) (_constraints self)
      = true ->
      fst (_validate_constraints self) = self).
Proof.
  split; [exact call_keeps_frame|].
  intros self H. rewrite validate_eq. unfold on_dataframe.
  pose proof (run_closures_keeps_frame _ (_dataframe self) H) as K.
  destruct (run_closures (_constraints self) (_dataframe self)) as [T r].
  simpl in K. subst T. now destruct self.
Qed.

Lemma validation_without_defaults_changes_nothing_witness :
  fst (call (check_constraint "Age" ">" (SInt 100)) test_frame) = test_frame /\
  fst (_validate_constraints (set_dataframe test_frame registry_not_null_id))
  = set_dataframe test_frame registry_not_null_id.
Proof.
  split.
  - apply (proj1 validation_without_defaults_changes_nothing). reflexivity.
  - apply (proj2 validation_without_defaults_changes_nothing). reflexivity.
Defined.












Lemma unique_constraint_repeats_witness :
  key_repeats test_frame ["Id"] /\
  snd (call (unique_constraint ["Id"]) test_frame)
  = Err (ValueError (UniqueDuplicate ["Id"])).
Proof.
  assert (K : key_repeats test_frame ["Id"]).
  { exists 0, 1. split; [lia|]. split; [simpl; lia|].
    intros c [<-|[]]. reflexivity. }
  split; [exact K|].
  apply (proj1 (proj2 (unique_constraint_repeats test_frame ["Id"]
                         ltac:(discriminate)
                         (fun c H => match H with
                                     | or_introl E =>
                                         eq_ind "Id"
                                           (fun x => has_column test_frame x = true)
                                           eq_refl c E
                                     | or_intror F => match F with end
                                     end)))).
  exact K.
Defined.

(** ** Primary key implies unique and not null *)

Lemma dict_get_In {V} (k : string) (v : V) (d : list (string * V)) :
  dict_get k d = Some v -> exists k', In (k', v) d.
Proof.
  induction d as [|[k0 v0] d IH]; simpl; [discriminate|].
  destruct (String.eqb k k0).
  - intro H. inversion H; subst. exists k0. now left.
  - intro H. destruct (IH H) as [k' Hin]. exists k'. now right.
Qed.

Lemma primary_key_returns (T : DataFrame) (cols : list string) :
  cols <> [] ->
  (forall c, In c cols -> has_column T c = true) ->
  snd (call (primary_key_constraint cols) T) = Ok tt ->
  ~ key_has_null T cols /\ ~ key_repeats T cols.
Proof.
  intros Hne H.
  destruct (getitem_list_rows T cols H) as [sub [Hs Hr]].
  destruct (duplicated_keys T cols Hne H) as [d [Hd Hdup]].
  pose proof (any_null_keys T cols) as Hnull.
  unfold call, bind, get, lift, when, raise, ret.
  rewrite Hs, Hd. unfold isnull_any_axis1. rewrite Hr.
  destruct (any (map (existsb is_null) (map (key T cols) (seq 0 (index T)))))
    eqn:En; [discriminate|].
  destruct (any d) eqn:Ed; [discriminate|]. intros _. split.
  - intro K. apply Hnull in K. discriminate.
  - intro K. apply Hdup in K. discriminate.
Qed.

(** X7: a frame that passes the primary-key closure over [cols] also
    passes the unique closure over [cols] and the not-null closure of
    every column in [cols]. *)
Theorem primary_key_implies_unique_and_not_null
    (T : DataFrame) (cols : list string) :
  rectangular T ->
  cols <> [] ->
  (forall c, In c cols -> has_column T c = true) ->
  snd (call (primary_key_constraint cols) T) = Ok tt ->
  snd (call (unique_constraint cols) T) = Ok tt /\
  forall c, In c cols -> snd (call (not_null_constraint c) T) = Ok tt.
Proof.
  intros R Hne H Hpk.
  destruct (primary_key_returns T cols Hne H Hpk) as [Hnull Hrep].
  split.
  - destruct (duplicated_keys T cols Hne H) as [d [Hd Hdup]].
    unfold call, bind, get, lift, when, raise, ret. rewrite Hd.
    destruct (any d) eqn:Ed; [|reflexivity].
    elim Hrep. now apply Hdup.
  - intros c Hc. specialize (H c Hc). unfold has_column in H.
    unfold call, bind, get, lift, when, raise, ret, getitem.
    destruct (lookup c (columns T)) as [col|] eqn:E; [|discriminate].
    rewrite any_isnull.
    destruct (existsb is_null col) eqn:N; [|reflexivity].
    exfalso. apply Hnull. apply existsb_is_null in N.
    apply In_nth_error in N as [n Hn].
    assert (L : List.length col = index T).
    { unfold lookup in E. destruct (dict_get_In _ _ _ E) as [k' Hin].
      unfold rectangular in R. rewrite Forall_forall in R.
      exact (R _ Hin). }
    exists n, c. split; [|split; [exact Hc|]].
    + rewrite <- L. apply nth_error_Some. unfold cell in *. congruence.
    + unfold cell_at. rewrite E. now apply nth_error_nth.
Qed.

Lemma primary_key_implies_unique_and_not_null_witness :
  snd (call (unique_constraint ["City"; "Test"]) test_frame) = Ok tt /\
  forall c, In c ["City"; "Test"] ->
            snd (call (not_null_constraint c) test_frame) = Ok tt.
Proof.
  apply (primary_key_implies_unique_and_not_null test_frame ["City"; "Test"]).
  - exact rectangular_test_frame.
  - discriminate.
  - intros c [<-|[<-|[]]]; reflexivity.
  - reflexivity.
Defined.

(** ** Check closures *)

Lemma call_check_symbol (c cond : string) (v : scalar) (op : CheckOp) :
  strip (upper cond) = symbol op ->
  call (check_constraint c cond v) = check_branch op c v.
Proof.
  intro H. unfold call. rewrite H. destruct op; reflexivity.
Qed.

Lemma compare_int_cells (op : CheckOp) (cs : list (option Z)) (b : Z) :
  exists bs,
    compare_series op (int_cells cs) (SInt b) = Ok bs /\
    (all bs = true <-> Forall (fun x => satisfies op x b) cs).
Proof.
  induction cs as [|x cs [bs [Hc Hall]]].
  - exists []. split; [reflexivity|]. split; [constructor|reflexivity].
  - assert (Hx : exists bx,
               compare_cell op (option_map SInt x) (SInt b) = Ok bx /\
               (bx = true <-> satisfies op x b)).
    { destruct x as [a|]; destruct op; simpl; eexists;
        (split; [reflexivity|]); unfold satisfies;
        rewrite ?negb_true_iff, ?Z.eqb_eq, ?Z.eqb_neq, ?Z.ltb_lt, ?Z.leb_le;
        try lia; try (split; [discriminate|discriminate]);
        try (split; reflexivity). }
    destruct Hx as [bx [Hx Hbx]].
    exists (bx :: bs). cbn [int_cells map compare_series].
    fold (int_cells cs). rewrite Hx, Hc. split; [reflexivity|].
    unfold all in *. cbn [forallb]. rewrite andb_true_iff, Hbx, Hall.
    split.
    + intros [A B]. now constructor.
    + intro F. inversion F. now split.
Qed.

(** X8: what a check closure decides on a column of integers and nulls,
    for each of the six conditions and an integer value, all numbers being
    of magnitude at most 2^53 (so that a float64 column holds them
    exactly): it leaves the frame as it is, returns exactly when every cell
    satisfies the condition against the value (a null satisfies only
    [!=]), and otherwise raises the check error naming the column, the
    condition and the value. *)
Theorem check_constraint_on_integers
    (T : DataFrame) (c cond : string) (op : CheckOp)
    (cs : list (option Z)) (b : Z) :
  lookup c (columns T) = Some (int_cells cs) ->
  strip (upper cond) = symbol op ->
  (forall a, In (Some a) cs -> float_exact a) ->
  float_exact b ->
  fst (call (check_constraint c cond (SInt b)) T) = T /\
  (snd (call (check_constraint c cond (SInt b)) T) = Ok tt
   <-> Forall (fun x => satisfies op x b) cs) /\
  (snd (call (check_constraint c cond (SInt b)) T)
   = Err (ValueError (CheckFailed c op (SInt b)))
   <-> ~ Forall (fun x => satisfies op x b) cs).
Proof.
  intros E H _ _. rewrite (call_check_symbol c cond (SInt b) op H).
  destruct (compare_int_cells op cs b) as [bs [Hc Hall]].
  unfold check_branch, bind, get, lift, when, raise, ret, getitem.
  rewrite E, Hc. destruct (all bs) eqn:A; cbn [negb fst snd].
  - split; [reflexivity|]. split; split; intro X;
      [now apply Hall|reflexivity|discriminate|].
    elim X. now apply Hall.
  - split; [reflexivity|]. split; split; intro X;
      [discriminate| |intro F; apply Hall in F; discriminate|reflexivity].
    apply Hall in X. discriminate.
Qed.

Lemma check_constraint_on_integers_witness :
  Forall (fun x => satisfies OpGe x 25) [Some 25; Some 30; Some 35; Some 40]%Z
  /\
  call (check_constraint "Age" " >= " (SInt 25)) test_frame
  = (test_frame, Ok tt) /\
  ~ Forall (fun x => satisfies OpLt x 40) [Some 25; Some 30; Some 35; Some 40]%Z
  /\
  call (check_constraint "Age" "<" (SInt 40)) test_frame
  = (test_frame, Err (ValueError (CheckFailed "Age" OpLt (SInt 40)))).
Proof.
  assert (B : forall a, In (Some a) [Some 25; Some 30; Some 35; Some 40]%Z ->
                        float_exact a).
  { intros a [E|[E|[E|[E|[]]]]]; inversion E; subst a;
      unfold float_exact; simpl; lia. }
  assert (F : Forall (fun x => satisfies OpGe x 25)
                     [Some 25; Some 30; Some 35; Some 40]%Z).
  { repeat constructor; simpl; lia. }
  assert (N : ~ Forall (fun x => satisfies OpLt x 40)
                       [Some 25; Some 30; Some 35; Some 40]%Z).
  { intro X. rewrite Forall_forall in X.
    assert (K : satisfies OpLt (Some 40%Z) 40) by (apply X; simpl; tauto).
    simpl in K. lia. }
  destruct (check_constraint_on_integers test_frame "Age" " >= " OpGe
              [Some 25; Some 30; Some 35; Some 40]%Z 25%Z eq_refl eq_refl B)
    as [A1 [A2 _]]; [unfold float_exact; simpl; lia|].
  destruct (check_constraint_on_integers test_frame "Age" "<" OpLt
              [Some 25; Some 30; Some 35; Some 40]%Z 40%Z eq_refl eq_refl B)
    as [C1 [_ C3]]; [unfold float_exact; simpl; lia|].
  split; [exact F|]. split.
  - apply injective_projections; [exact A1|]. now apply A2.
  - split; [exact N|].
    apply injective_projections; [exact C1|]. now apply C3.
Defined.

(** ** Whitespace around a condition *)

Lemma upper_append (a b : string) :
  upper (a ++ b)%string = (upper a ++ upper b)%string.
Proof. induction a as [|x a IH]; simpl; [reflexivity|now rewrite IH]. Qed.

Lemma is_space_bound (a : ascii) :
  is_space a = true -> (nat_of_ascii a <= 32)%nat.
Proof.
  unfold is_space. intro H. apply orb_true_iff in H as [H|H];
    apply andb_true_iff in H as [_ H]; apply Nat.leb_le in H; lia.
Qed.

Lemma upper_space (w : string) : all_space w = true -> upper w = w.
Proof.
  induction w as [|a w IH]; simpl; [reflexivity|].
  intro H. apply andb_true_iff in H as [Ha Hw]. rewrite (IH Hw).
  f_equal. unfold upper_char. apply is_space_bound in Ha.
  assert (E : (97 <=? nat_of_ascii a)%nat = false) by (apply Nat.leb_gt; lia).
  now rewrite E.
Qed.

Lemma lstrip_space (w s : string) :
  all_space w = true -> lstrip (w ++ s)%string = lstrip s.
Proof.
  induction w as [|a w IH]; simpl; [reflexivity|].
  intro H. apply andb_true_iff in H as [Ha Hw]. now rewrite Ha, IH.
Qed.

Lemma list_ascii_append (a b : string) :
  list_ascii_of_string (a ++ b)%string
  = list_ascii_of_string a ++ list_ascii_of_string b.
Proof. induction a as [|x a IH]; simpl; [reflexivity|now rewrite IH]. Qed.

Lemma string_of_list_app (l1 l2 : list ascii) :
  string_of_list_ascii (l1 ++ l2)
  = (string_of_list_ascii l1 ++ string_of_list_ascii l2)%string.
Proof. induction l1 as [|x l1 IH]; simpl; [reflexivity|now rewrite IH]. Qed.

Lemma reverse_append (a b : string) :
  reverse (a ++ b)%string = (reverse b ++ reverse a)%string.
Proof.
  unfold reverse. now rewrite list_ascii_append, rev_app_distr, string_of_list_app.
Qed.

Lemma all_space_list (w : string) :
  all_space w = forallb is_space (list_ascii_of_string w).
Proof. induction w as [|a w IH]; simpl; [reflexivity|now rewrite IH]. Qed.

Lemma all_space_reverse (w : string) :
  all_space w = true -> all_space (reverse w) = true.
Proof.
  rewrite !all_space_list. unfold reverse.
  rewrite list_ascii_of_string_of_list_ascii, !forallb_forall.
  intros H x Hx. apply H. now apply in_rev.
Qed.

Lemma strip_padded (w1 w2 : string) (op : CheckOp) :
  all_space w1 = true -> all_space w2 = true ->
  strip (upper (w1 ++ symbol op ++ w2)%string) = symbol op.
Proof.
  intros H1 H2.
  rewrite !upper_append, (upper_space w1 H1), (upper_space w2 H2).
  unfold strip. rewrite (lstrip_space w1 _ H1).
  assert (L : lstrip (upper (symbol op) ++ w2)%string
              = (symbol op ++ w2)%string) by (destruct op; reflexivity).
  rewrite L. unfold rstrip. rewrite reverse_append.
  rewrite (lstrip_space _ _ (all_space_reverse w2 H2)).
  destruct op; reflexivity.
Qed.

(** X9: whitespace around a supported condition does not change what the
    check closure does: built with the padded condition, it behaves on
    every frame as the closure built with the bare condition.  Its
    descriptor keeps the condition as given, though, so when the padding is
    not empty the registry takes the two for different constraints and
    accepts the second after the first. *)
Theorem padded_condition_same_check
    (w1 w2 : string) (op : CheckOp) (c : string) (v : scalar) :
  all_space w1 = true ->
  all_space w2 = true ->
  (forall T,
      call (check_constraint c (w1 ++ symbol op ++ w2)%string v) T
      = call (check_constraint c (symbol op) v) T)
  /\
  (forall n m,
      (w1 ++ symbol op ++ w2)%string <> symbol op ->
      snd ((add_constraint (built (constraint_check n c (symbol op) v)) ;;
            add_constraint
              (built (constraint_check m c (w1 ++ symbol op ++ w2)%string v)))
             __init__)
      = Ok tt).
Proof.
  intros H1 H2. split.
  - intro T.
    rewrite (call_check_symbol c _ v op (strip_padded w1 w2 op H1 H2)).
    rewrite (call_check_symbol c (symbol op) v op); [reflexivity|].
    destruct op; reflexivity.
  - intros n m N. unfold bind. rewrite add_constraint_eq.
    cbn [first_verdict _constraint_details __init__ built constraint_check code].
    rewrite add_constraint_eq.
    cbn [_constraint_details app first_verdict code].
    assert (E : _Constraint_eqb
                  (descriptor
                     (check_constraint c (w1 ++ symbol op ++ w2)%string v))
                  (descriptor (check_constraint c (symbol op) v)) = false).
    { apply _Constraint_eqb_neq. intro X. simpl in X. inversion X.
      contradiction. }
    rewrite add_verdict_other by (simpl; discriminate).
    rewrite E. reflexivity.
Qed.

Lemma padded_condition_same_check_witness :
  (forall T,
      call (check_constraint "Age" (" " ++ symbol OpGt ++ " ")%string (SInt 10))
           T
      = call (check_constraint "Age" (symbol OpGt) (SInt 10)) T)
  /\
  snd ((add_constraint
          (built (constraint_check 1 "Age" (symbol OpGt) (SInt 10))) ;;
        add_constraint
          (built (constraint_check 2 "Age"
                    (" " ++ symbol OpGt ++ " ")%string (SInt 10))))
         __init__)
  = Ok tt.
Proof.
  destruct (padded_condition_same_check " " " " OpGt "Age" (SInt 10)
              eq_refl eq_refl) as [A B].
  split; [exact A|]. apply B. discriminate.
Defined.

(** ** Registry: what is accepted *)

Lemma first_verdict_none (inp : _Constraint) (l : list _Constraint) :
  first_verdict inp l = None <-> forall x, In x l -> add_verdict inp x = None.
Proof.
  induction l as [|c l IH]; simpl.
  - split; [intros _ x []|reflexivity].
  - destruct (add_verdict inp c) eqn:E; split.
    + discriminate.
    + intro H. specialize (H c (or_introl eq_refl)). congruence.
    + intros H x [<-|Hx]; [exact E|]. now apply IH.
    + intro H. apply IH. intros x Hx. apply H. now right.
Qed.

Lemma add_verdict_none (inp x : _Constraint) :
  add_verdict inp x = None <->
  (String.eqb (constraint_name inp) "primary_key_constraint"
   && String.eqb (constraint_name inp) (constraint_name x) = false) /\
  (String.eqb (constraint_name inp) "not_null_constraint"
   && String.eqb (constraint_name x) "primary_key_constraint"
   && column_name_in (column_name inp) (column_names x) = false) /\
  _Constraint_eqb inp x = false.
Proof.
  unfold add_verdict.
  destruct (String.eqb (constraint_name inp) "primary_key_constraint"
            && String.eqb (constraint_name inp) (constraint_name x));
    [split; [discriminate|intros [H _]; discriminate]|].
  destruct (String.eqb (constraint_name inp) "not_null_constraint"
            && String.eqb (constraint_name x) "primary_key_constraint"
            && column_name_in (column_name inp) (column_names x));
    [split; [discriminate|intros [_ [H _]]; discriminate]|].
  destruct (_Constraint_eqb inp x);
    [split; [discriminate|intros [_ [_ H]]; discriminate]|].
  now repeat split.
Qed.

(** X10: when [add_constraint] accepts.  With [d] the descriptor rebuilt
    from the closure, the call returns exactly when no registered
    descriptor equals [d], no primary key is registered if [d] is a primary
    key, and no registered primary key lists the column of [d] if [d] is a
    not-null; it then appends the closure and [d] at the end of their
    lists and leaves the frame alone. *)
Theorem add_constraint_accepts_iff
    (self : FileFrame) (f : Closure) (d : _Constraint) :
  _get_constraint_closure_function_details f = Ok d ->
  (snd (add_constraint f self) = Ok tt <->
   ~ In d (_constraint_details self) /\
   (constraint_name d = "primary_key_constraint" ->
    forall x, In x (_constraint_details self) ->
              constraint_name x <> "primary_key_constraint") /\
   (constraint_name d = "not_null_constraint" ->
    forall x, In x (_constraint_details self) ->
              constraint_name x = "primary_key_constraint" ->
              column_name_in (column_name d) (column_names x) = false))
  /\
  (snd (add_constraint f self) = Ok tt ->
   fst (add_constraint f self)
   = mkFileFrame (_dataframe self) (_constraints self ++ [f])
                 (_constraint_details self ++ [d])).
Proof.
  intro Hd. rewrite details_descriptor in Hd. inversion Hd as [E]. clear Hd.
  rewrite add_constraint_eq.
  destruct (first_verdict (descriptor (code f)) (_constraint_details self))
    as [e|] eqn:V; cbn [fst snd].
  - split; [|discriminate]. split; [discriminate|].
    intros (A & B & C). exfalso.
    assert (N : first_verdict (descriptor (code f)) (_constraint_details self)
                = None); [|congruence].
    apply first_verdict_none. intros x Hx. apply add_verdict_none.
    split; [|split].
    + destruct (String.eqb (constraint_name (descriptor (code f)))
                           "primary_key_constraint") eqn:P; [|reflexivity].
      apply String.eqb_eq in P. cbn [andb]. apply String.eqb_neq.
      rewrite P. intro Q. now apply (B P x Hx).
    + destruct (String.eqb (constraint_name (descriptor (code f)))
                           "not_null_constraint") eqn:P; [|reflexivity].
      apply String.eqb_eq in P. cbn [andb].
      destruct (String.eqb (constraint_name x) "primary_key_constraint") eqn:Q;
        [|reflexivity].
      apply String.eqb_eq in Q. cbn [andb]. now apply (C P x Hx).
    + apply _Constraint_eqb_neq. intro Q. subst x. contradiction.
  - split; [|reflexivity]. split; [intros _|reflexivity].
    pose proof (proj1 (first_verdict_none _ _) V) as N.
    split; [|split].
    + intro Hin. specialize (N _ Hin). apply add_verdict_none in N.
      destruct N as (_ & _ & N). rewrite _Constraint_eqb_refl in N.
      discriminate.
    + intros P x Hx Q. specialize (N _ Hx). apply add_verdict_none in N.
      destruct N as (N & _). rewrite P, Q in N. vm_compute in N. discriminate.
    + intros P x Hx Q. specialize (N _ Hx). apply add_verdict_none in N.
      destruct N as (_ & N & _). rewrite P, Q in N.
      change (String.eqb "not_null_constraint" "not_null_constraint") with true in N.
      change (String.eqb "primary_key_constraint" "primary_key_constraint")
        with true in N.
      exact N.
Qed.

Lemma add_constraint_accepts_iff_witness :
  (snd (add_constraint (built (constraint_not_null 2 "Id"))
                       registry_with_primary_key) = Ok tt <->
   ~ In (descriptor (not_null_constraint "Id"))
        (_constraint_details registry_with_primary_key) /\
   (constraint_name (descriptor (not_null_constraint "Id"))
    = "primary_key_constraint" ->
    forall x, In x (_constraint_details registry_with_primary_key) ->
              constraint_name x <> "primary_key_constraint") /\
   (constraint_name (descriptor (not_null_constraint "Id"))
    = "not_null_constraint" ->
    forall x, In x (_constraint_details registry_with_primary_key) ->
              constraint_name x = "primary_key_constraint" ->
              column_name_in
                (column_name (descriptor (not_null_constraint "Id")))
                (column_names x) = false))
  /\
  (snd (add_constraint (built (constraint_not_null 2 "Id"))
                       registry_with_primary_key) = Ok tt ->
   fst (add_constraint (built (constraint_not_null 2 "Id"))
                       registry_with_primary_key)
   = mkFileFrame (_dataframe registry_with_primary_key)
       (_constraints registry_with_primary_key
        ++ [built (constraint_not_null 2 "Id")])
       (_constraint_details registry_with_primary_key
        ++ [descriptor (not_null_constraint "Id")])).
Proof.
  apply (add_constraint_accepts_iff registry_with_primary_key
           (built (constraint_not_null 2 "Id"))
           (descriptor (not_null_constraint "Id"))).
  reflexivity.
Defined.

(** ** Registry: removal *)

Lemma filter_filter_same {A} (p : A -> bool) (l : list A) :
  filter p (filter p l) = filter p l.
Proof.
  induction l as [|x l IH]; simpl; [reflexivity|].
  destruct (p x) eqn:E; simpl; [rewrite E; now f_equal|exact IH].
Qed.

(** X11: removing undoes adding.  If [add_constraint] accepted a closure
    whose identity no registered closure shares, removing that closure
    brings the instance back to exactly what it was before the two
    calls. *)
Theorem add_then_remove_restores (self : FileFrame) (f : Closure) :
  snd (add_constraint f self) = Ok tt ->
  (forall g, In g (_constraints self) -> fid g <> fid f) ->
  remove_constraint f (fst (add_constraint f self)) = (self, Ok tt).
Proof.
  rewrite add_constraint_eq.
  destruct (first_verdict (descriptor (code f)) (_constraint_details self))
    eqn:V; [discriminate|].
  intros _ Hfresh. cbn [fst]. rewrite remove_constraint_eq.
  cbn [_dataframe _constraints _constraint_details].
  rewrite !filter_app. cbn [filter]. unfold func_ne at 2.
  rewrite Nat.eqb_refl, _Constraint_eqb_refl. cbn [negb]. rewrite !app_nil_r.
  assert (A : filter (fun func => func_ne func f) (_constraints self)
              = _constraints self).
  { apply filter_id_iff. intros g Hg. unfold func_ne.
    apply negb_true_iff, Nat.eqb_neq. now apply Hfresh. }
  assert (B : filter (fun d => negb (_Constraint_eqb d (descriptor (code f))))
                     (_constraint_details self)
              = _constraint_details self).
  { apply filter_id_iff. intros d Hd. apply negb_true_iff, _Constraint_eqb_neq.
    intro E. subst d. exact (first_verdict_none_not_in _ _ V Hd). }
  rewrite A, B. now destruct self.
Qed.

Lemma add_then_remove_restores_witness :
  remove_constraint (built (constraint_unique 2 ["Id"]))
    (fst (add_constraint (built (constraint_unique 2 ["Id"]))
                         registry_with_primary_key))
  = (registry_with_primary_key, Ok tt).
Proof.
  apply (add_then_remove_restores registry_with_primary_key
           (built (constraint_unique 2 ["Id"]))).
  - reflexivity.
  - intros g [<-|[]]. discriminate.
Defined.

(** X12: what [remove_constraint] leaves behind.  It never raises and
    never touches the frame.  Afterwards the closure list holds exactly the
    former closures whose identity differs from that of the argument, and
    the descriptor list exactly the former descriptors that differ from the
    descriptor rebuilt from the argument; removing the same closure again
    changes nothing. *)
Theorem remove_constraint_effect
    (self : FileFrame) (f : Closure) (d : _Constraint) :
  _get_constraint_closure_function_details f = Ok d ->
  snd (remove_constraint f self) = Ok tt /\
  _dataframe (fst (remove_constraint f self)) = _dataframe self /\
  (forall g, In g (_constraints (fst (remove_constraint f self))) <->
             In g (_constraints self) /\ fid g <> fid f) /\
  (forall x, In x (_constraint_details (fst (remove_constraint f self))) <->
             In x (_constraint_details self) /\ x <> d) /\
  remove_constraint f (fst (remove_constraint f self))
  = (fst (remove_constraint f self), Ok tt).
Proof.
  intro Hd. rewrite details_descriptor in Hd. inversion Hd as [E]. clear Hd.
  rewrite !remove_constraint_eq.
  cbn [fst snd _dataframe _constraints _constraint_details].
  split; [reflexivity|]. split; [reflexivity|]. split; [|split].
  - intro g. rewrite filter_In. unfold func_ne.
    rewrite negb_true_iff, Nat.eqb_neq. reflexivity.
  - intro x. rewrite filter_In, negb_true_iff, _Constraint_eqb_neq.
    reflexivity.
  - now rewrite !filter_filter_same.
Qed.

Lemma remove_constraint_effect_witness :
  snd (remove_constraint (built (constraint_not_null 2 "Id"))
                         registry_not_null_id) = Ok tt /\
  _dataframe (fst (remove_constraint (built (constraint_not_null 2 "Id"))
                                     registry_not_null_id))
  = _dataframe registry_not_null_id /\
  (forall g,
      In g (_constraints
              (fst (remove_constraint (built (constraint_not_null 2 "Id"))
                                      registry_not_null_id))) <->
      In g (_constraints registry_not_null_id) /\ fid g <> 2) /\
  (forall x,
      In x (_constraint_details
              (fst (remove_constraint (built (constraint_not_null 2 "Id"))
                                      registry_not_null_id))) <->
      In x (_constraint_details registry_not_null_id) /\
      x <> descriptor (not_null_constraint "Id")) /\
  remove_constraint (built (constraint_not_null 2 "Id"))
    (fst (remove_constraint (built (constraint_not_null 2 "Id"))
                            registry_not_null_id))
  = (fst (remove_constraint (built (constraint_not_null 2 "Id"))
                            registry_not_null_id), Ok tt).
Proof.
  apply (remove_constraint_effect registry_not_null_id
           (built (constraint_not_null 2 "Id"))
           (descriptor (not_null_constraint "Id"))).
  reflexivity.
Defined.

(** ** Descriptors and keyword arguments *)

(** X13: the descriptor rebuilt from a closure records its kind and all its
    parameters except the keyword arguments of a default-value closure: two
    closures have the same descriptor exactly when their codes agree up to
    those keyword arguments.  So once a default for a column and value is
    registered, a default for the same column and value is rejected as a
    duplicate whatever keyword arguments it carries. *)
Theorem details_ignore_kwargs :
  (forall f g : Closure,
      _get_constraint_closure_function_details f
      = _get_constraint_closure_function_details g <->
      forget_kwargs (code f) = forget_kwargs (code g))
  /\
  (forall (self : FileFrame) (f g : Closure) c v kw1 kw2,
      code f = default_value_constraint c v kw1 ->
      code g = default_value_constraint c v kw2 ->
      (exists d, _get_constraint_closure_function_details f = Ok d /\
                 In d (_constraint_details self)) ->
      add_constraint g self
      = (self,
         Err (ValueError
                (DuplicateConstraint "default_value_constraint" (inl c))))).
Proof.
  split.
  - intros f g. rewrite !details_descriptor.
    destruct (code f) as [k|ks|ks|k op v|k v kw],
             (code g) as [k'|ks'|ks'|k' op' v'|k' v' kw'];
      simpl; split; intro H; try discriminate H;
      inversion H; subst; reflexivity.
  - intros self f g c v kw1 kw2 Hf Hg [d [Hd Hin]].
    rewrite details_descriptor, Hf in Hd. inversion Hd; subst d. clear Hd.
    rewrite add_constraint_eq, Hg.
    rewrite (first_verdict_other (default_value_constraint c v kw2));
      [reflexivity|simpl; discriminate|simpl; discriminate|exact Hin].
Qed.

Lemma details_ignore_kwargs_witness :
  add_constraint
    (built (constraint_default_value 2 "Id" (SStr "004")
              (mkFillKwargs (Some 1%positive))))
    (fst (add_constraint
            (built (constraint_default_value 1 "Id" (SStr "004") no_kwargs))
            __init__))
  = (fst (add_constraint
            (built (constraint_default_value 1 "Id" (SStr "004") no_kwargs))
            __init__),
     Err (ValueError
            (DuplicateConstraint "default_value_constraint" (inl "Id")))).
Proof.
  apply (proj2 details_ignore_kwargs _
           (built (constraint_default_value 1 "Id" (SStr "004") no_kwargs))
           (built (constraint_default_value 2 "Id" (SStr "004")
                     (mkFillKwargs (Some 1%positive))))
           "Id" (SStr "004") no_kwargs (mkFillKwargs (Some 1%positive))).
  - reflexivity.
  - reflexivity.
  - eexists. split; [reflexivity|]. left. reflexivity.
Defined.

(** ** Loaders *)

Lemma set_dataframe_registry (T : DataFrame) (a b : FileFrame) :
  _constraints a = _constraints b ->
  _constraint_details a = _constraint_details b ->
  set_dataframe T a = set_dataframe T b.
Proof. unfold set_dataframe. now intros -> ->. Qed.

Lemma load_after_load (p1 : result DataFrame) (T : DataFrame)
    (self : FileFrame) :
  load (Ok T) (fst (load p1 self)) = load (Ok T) self.
Proof.
  rewrite !(load_eq (Ok T)). f_equal.
  destruct (load_registry p1 self) as [A B].
  now apply set_dataframe_registry.
Qed.

(** X14: no loader ever changes the registry: after [read_dict],
    [read_excel], [read_csv] or [read_fwf], returning or raising, both
    lists are as before.  When the frame cannot be built (the reader
    raises, or the dict has lists of different lengths) the instance is
    untouched and the exception is the reader's. *)
Theorem loaders_keep_registry
    (self : FileFrame) (d : list (string * list cell))
    (parsed : result DataFrame) :
  (_constraints (fst (read_dict d self)) = _constraints self /\
   _constraint_details (fst (read_dict d self)) = _constraint_details self) /\
  (_constraints (fst (read_excel parsed self)) = _constraints self /\
   _constraint_details (fst (read_excel parsed self))
   = _constraint_details self) /\
  (_constraints (fst (read_csv parsed self)) = _constraints self /\
   _constraint_details (fst (read_csv parsed self)) = _constraint_details self)
  /\
  (_constraints (fst (read_fwf parsed self)) = _constraints self /\
   _constraint_details (fst (read_fwf parsed self)) = _constraint_details self)
  /\
  (forall e,
      read_excel (Err e) self = (self, Err e) /\
      read_csv (Err e) self = (self, Err e) /\
      read_fwf (Err e) self = (self, Err e) /\
      (DataFrame_of_dict d = Err e -> read_dict d self = (self, Err e))).
Proof.
  split; [rewrite read_dict_load; apply load_registry|].
  split; [apply (load_registry parsed self)|].
  split; [apply (load_registry parsed self)|].
  split; [apply (load_registry parsed self)|].
  intro e. repeat split.
  intro H. rewrite read_dict_load, H. reflexivity.
Qed.

Lemma loaders_keep_registry_witness :
  read_dict [("Id", [None; None]); ("Name", [None])] registry_not_null_id
  = (registry_not_null_id, Err PandasError).
Proof.
  apply (proj2 (proj2 (proj2 (proj2
           (loaders_keep_registry registry_not_null_id
              [("Id", [None; None]); ("Name", [None])] (Err PandasError)))))
           PandasError).
  reflexivity.
Defined.

(** X15: a load replaces the frame wholesale.  What a successful parse
    followed by validation leaves, and whether it raises, does not depend
    on the frame held before: loading after an earlier load gives the same
    instance and outcome as loading directly.  With no constraint
    registered the load stores the new frame and returns. *)
Theorem load_replaces_frame
    (self : FileFrame) (T : DataFrame) (d : list (string * list cell)) :
  DataFrame_of_dict d = Ok T ->
  (forall d1, read_dict d (fst (read_dict d1 self)) = read_dict d self) /\
  (forall p1, read_dict d (fst (read_csv p1 self)) = read_dict d self) /\
  (forall p1, read_csv (Ok T) (fst (read_excel p1 self))
              = read_csv (Ok T) self) /\
  (forall d1, read_fwf (Ok T) (fst (read_dict d1 self))
              = read_fwf (Ok T) self) /\
  (_constraints self = [] -> read_dict d self = (set_dataframe T self, Ok tt)).
Proof.
  intro Hd. rewrite !read_dict_load, Hd. repeat split.
  - intro d1. rewrite read_dict_load. apply load_after_load.
  - intro p1. apply (load_after_load p1 T self).
  - intro p1. apply (load_after_load p1 T self).
  - intro d1. rewrite read_dict_load.
    apply (load_after_load (DataFrame_of_dict d1) T self).
  - intro H. rewrite load_eq, validate_eq. unfold on_dataframe.
    cbn [_constraints _dataframe set_dataframe]. rewrite H.
    destruct self; reflexivity.
Qed.

Lemma load_replaces_frame_witness :
  (forall d1,
      read_dict data (fst (read_dict d1 registry_not_null_id))
      = read_dict data registry_not_null_id) /\
  read_dict data __init__ = (set_dataframe test_frame __init__, Ok tt).
Proof.
  destruct (load_replaces_frame registry_not_null_id test_frame data eq_refl)
    as [A _].
  split; [exact A|].
  apply (load_replaces_frame __init__ test_frame data eq_refl). reflexivity.
Defined.

(** ** Finding duplicate records *)

Lemma nth_duplicated_from (seen keys : list (list cell)) (n : nat) :
  nth n (duplicated_from seen keys) false = true <->
  exists k, nth_error keys n = Some k /\
            (In k seen \/ exists j, j < n /\ nth_error keys j = Some k).
Proof.
  revert seen n. induction keys as [|x keys IH]; intros seen n.
  - destruct n; simpl; split; try discriminate;
      intros [k [H _]]; discriminate.
  - destruct n as [|n]; cbn [duplicated_from nth nth_error].
    + rewrite existsb_exists. split.
      * intros [y [Hy E]]. apply key_eqb_eq in E. subst y.
        exists x. split; [reflexivity|now left].
      * intros [k [Hk [Hin|[j [Hj _]]]]]; [|lia].
        inversion Hk; subst k. exists x. split; [exact Hin|].
        now apply key_eqb_eq.
    + rewrite IH. split.
      * intros [k [Hk [[E|Hin]|[j [Hj Hn]]]]]; exists k; (split; [exact Hk|]).
        -- subst k. right. exists 0. split; [lia|reflexivity].
        -- now left.
        -- right. exists (S j). split; [lia|exact Hn].
      * intros [k [Hk [Hin|[j [Hj Hn]]]]]; exists k; (split; [exact Hk|]).
        -- left. now right.
        -- destruct j as [|j].
           ++ simpl in Hn. inversion Hn. left. now left.
           ++ right. exists j. split; [lia|exact Hn].
Qed.

Lemma length_duplicated_from (seen keys : list (list cell)) :
  List.length (duplicated_from seen keys) = List.length keys.
Proof.
  revert seen. induction keys as [|x keys IH]; intro seen; simpl;
    [reflexivity|now rewrite IH].
Qed.

Lemma length_duplicated_with (keep : Keep) (keys : list (list cell)) :
  List.length (duplicated_with keep keys) = List.length keys.
Proof.
  destruct keep; unfold duplicated_with.
  - apply length_duplicated_from.
  - now rewrite length_rev, length_duplicated_from, length_rev.
  - rewrite length_map, length_combine, length_rev, !length_duplicated_from,
      length_rev. apply Nat.min_id.
Qed.

Lemma nth_duplicated_last (keys : list (list cell)) (n : nat) :
  n < List.length keys ->
  (nth n (rev (duplicated_from [] (rev keys))) false = true <->
   exists k, nth_error keys n = Some k /\
             exists j, n < j /\ nth_error keys j = Some k).
Proof.
  intro Hn. set (len := List.length keys) in *.
  rewrite rev_nth by (now rewrite length_duplicated_from, length_rev).
  rewrite length_duplicated_from, length_rev. fold len.
  rewrite nth_duplicated_from. split.
  - intros [k [Hk [[]|[j [Hj Hjk]]]]].
    rewrite nth_error_rev in Hk, Hjk. fold len in Hk, Hjk.
    assert (A : Nat.ltb (len - S n) len = true) by (apply Nat.ltb_lt; lia).
    assert (B : Nat.ltb j len = true) by (apply Nat.ltb_lt; lia).
    rewrite A in Hk. rewrite B in Hjk.
    replace (len - S (len - S n)) with n in Hk by lia.
    exists k. split; [exact Hk|]. exists (len - S j). split; [lia|exact Hjk].
  - intros [k [Hk [j [Hj Hjk]]]].
    assert (Lj : j < len).
    { apply nth_error_Some. unfold len. rewrite Hjk. discriminate. }
    exists k. rewrite nth_error_rev. fold len.
    assert (A : Nat.ltb (len - S n) len = true) by (apply Nat.ltb_lt; lia).
    rewrite A. replace (len - S (len - S n)) with n by lia.
    split; [exact Hk|]. right. exists (len - S j). split; [lia|].
    rewrite nth_error_rev. fold len.
    assert (B : Nat.ltb (len - S j) len = true) by (apply Nat.ltb_lt; lia).
    rewrite B. now replace (len - S (len - S j)) with j by lia.
Qed.

Lemma nth_duplicated_with (keep : Keep) (keys : list (list cell)) (n : nat) :
  n < List.length keys ->
  (nth n (duplicated_with keep keys) false = true <->
   exists k, nth_error keys n = Some k /\
             exists j, nth_error keys j = Some k /\
                       match keep with
                       | keep_first => j < n
                       | keep_last => n < j
                       | keep_false => j <> n
                       end).
Proof.
  intro Hn.
  assert (F : nth n (duplicated_from [] keys) false = true <->
              exists k, nth_error keys n = Some k /\
                        exists j, nth_error keys j = Some k /\ j < n).
  { rewrite nth_duplicated_from. split.
    - intros [k [Hk [[]|[j [Hj Hjk]]]]]. exists k. split; [exact Hk|].
      now exists j.
    - intros [k [Hk [j [Hjk Hj]]]]. exists k. split; [exact Hk|]. right.
      now exists j. }
  assert (L : nth n (rev (duplicated_from [] (rev keys))) false = true <->
              exists k, nth_error keys n = Some k /\
                        exists j, nth_error keys j = Some k /\ n < j).
  { rewrite (nth_duplicated_last keys n Hn). split.
    - intros [k [Hk [j [Hj Hjk]]]]. exists k. split; [exact Hk|]. now exists j.
    - intros [k [Hk [j [Hjk Hj]]]]. exists k. split; [exact Hk|]. now exists j. }
  destruct keep; unfold duplicated_with; [exact F|exact L|].
  assert (E : nth n (map (fun p : bool * bool => fst p || snd p)
                         (combine (duplicated_from [] keys)
                                  (rev (duplicated_from [] (rev keys)))))
                    false
              = nth n (duplicated_from [] keys) false
                || nth n (rev (duplicated_from [] (rev keys))) false).
  { change false with ((fun p : bool * bool => fst p || snd p) (false, false))
      at 1.
    rewrite map_nth, combine_nth; [reflexivity|].
    now rewrite length_rev, !length_duplicated_from, length_rev. }
  rewrite E, orb_true_iff, F, L. split.
  - intros [[k [Hk [j [Hjk Hj]]]]|[k [Hk [j [Hjk Hj]]]]];
      exists k; (split; [exact Hk|]); exists j; (split; [exact Hjk|lia]).
  - intros [k [Hk [j [Hjk Hj]]]].
    destruct (Nat.lt_total j n) as [Lt|[Eq|Gt]]; [left| |right];
      try (exists k; (split; [exact Hk|]); exists j; now split).
    contradiction.
Qed.

Lemma take_marked_rows (mask : list bool) (col : list cell) :
  List.length col = List.length mask ->
  take_marked mask col
  = map (fun n => nth n col None)
        (filter (fun n => nth n mask false) (seq 0 (List.length mask))).
Proof.
  revert col. induction mask as [|b m IH]; intros [|x r] H;
    try discriminate H; [reflexivity|].
  injection H as H. cbn [take_marked List.length seq filter nth].
  destruct b; cbn [map nth];
    rewrite <- seq_shift, filter_map_swap, map_map; cbn [nth];
    now rewrite (IH r H).
Qed.

Lemma length_marked (mask : list bool) :
  List.length (filter (fun b => b) mask)
  = List.length (filter (fun n => nth n mask false)
                        (seq 0 (List.length mask))).
Proof.
  induction mask as [|b m IH]; [reflexivity|].
  cbn [List.length seq filter nth].
  destruct b; cbn [List.length];
    rewrite <- seq_shift, filter_map_swap, length_map; cbn [nth];
    now rewrite IH.
Qed.

Lemma getitem_list_shape (T sub : DataFrame) (cols : list string) :
  getitem_list T cols = Ok sub ->
  index sub = index T /\ (cols <> [] -> columns sub <> []).
Proof.
  unfold getitem_list. destruct (select (columns T) cols) as [cs|e] eqn:E;
    [|discriminate].
  intro H. inversion H; subst sub. split; [reflexivity|].
  cbn [columns]. destruct cols as [|c cols]; [intro N; now elim N|].
  intros _. simpl in E. destruct (lookup c (columns T)); [|discriminate].
  destruct (select (columns T) cols); [|discriminate].
  inversion E. discriminate.
Qed.

(** X16: on a frame that has the (non-empty list of) columns,
    [find_duplicate_records] only reads the instance and returns the frame
    made of the rows that repeat a key, in their order and on all columns:
    with ['first'] (the default) a row is returned exactly when an earlier
    row has the same cells in the given columns, with ['last'] when a later
    row has, with [False] when any other row has. *)
Theorem find_duplicate_records_rows
    (self : FileFrame) (cols : list string) (kwargs : option Keep) :
  rectangular (_dataframe self) ->
  cols <> [] ->
  (forall c, In c cols -> has_column (_dataframe self) c = true) ->
  exists (marked : nat -> bool) (R : DataFrame),
    find_duplicate_records cols kwargs self = (self, Ok R) /\
    (forall n, n < index (_dataframe self) ->
               (marked n = true <->
                repeats_at (keep_of kwargs) (_dataframe self) cols n)) /\
    index R
    = List.length (filter marked (seq 0 (index (_dataframe self)))) /\
    columns R
    = map (fun kc =>
             (fst kc,
              map (fun n => nth n (snd kc) None)
                  (filter marked (seq 0 (index (_dataframe self))))))
          (columns (_dataframe self)).
Proof.
  intros R Hne H. set (T := _dataframe self) in *.
  destruct (getitem_list_rows T cols H) as [sub [Hs Hr]].
  destruct (getitem_list_shape T sub cols Hs) as [Hi Hc].
  set (keys := map (key T cols) (seq 0 (index T))) in *.
  assert (Lk : List.length keys = index T)
    by (unfold keys; now rewrite length_map, length_seq).
  assert (Hm : duplicated_rows sub (keep_of kwargs)
               = duplicated_with (keep_of kwargs) keys).
  { unfold duplicated_rows. rewrite Hi, Hr.
    destruct (Nat.eqb (index T) 0) eqn:E0.
    - apply Nat.eqb_eq in E0. unfold keys. rewrite E0.
      now destruct (keep_of kwargs).
    - destruct (Nat.eqb (List.length (columns sub)) 0) eqn:E1; [|reflexivity].
      apply Nat.eqb_eq, length_zero_iff_nil in E1. now elim (Hc Hne). }
  set (mask := duplicated_with (keep_of kwargs) keys) in *.
  assert (Lm : List.length mask = index T)
    by (unfold mask; now rewrite length_duplicated_with).
  exists (fun n => nth n mask false).
  unfold find_duplicate_records, bind, get, lift. fold T. rewrite Hs.
  fold (keep_of kwargs). rewrite Hm. fold mask. unfold getitem_mask.
  rewrite Lm, Nat.eqb_refl. cbn [orb]. eexists. split; [reflexivity|].
  cbn [index columns]. split; [|split].
  - intros n Hn. unfold mask.
    rewrite nth_duplicated_with by (now rewrite Lk).
    unfold keys, repeats_at. split.
    + intros [k [Hk [j [Hjk Hj]]]].
      rewrite nth_error_map_seq in Hk, Hjk. simpl in Hk, Hjk.
      destruct (Nat.ltb j (index T)) eqn:Ej; [|discriminate].
      destruct (Nat.ltb n (index T)); [|discriminate].
      apply Nat.ltb_lt in Ej. exists j. split; [exact Ej|].
      split; [congruence|exact Hj].
    + intros [j [Hj [E Hc']]]. exists (key T cols n).
      rewrite !nth_error_map_seq. simpl.
      apply Nat.ltb_lt in Hn as En. apply Nat.ltb_lt in Hj as Ej.
      rewrite En. split; [reflexivity|]. exists j.
      rewrite nth_error_map_seq. simpl. rewrite Ej.
      split; [now rewrite E|exact Hc'].
  - rewrite length_marked, Lm. reflexivity.
  - apply map_ext_in. intros [k col] Hin. cbn [fst snd]. f_equal.
    assert (L : List.length col = List.length mask).
    { unfold rectangular in R. rewrite Forall_forall in R.
      rewrite Lm. exact (R _ Hin). }
    rewrite (take_marked_rows mask col L), Lm. reflexivity.
Qed.

Lemma find_duplicate_records_rows_witness :
  exists (marked : nat -> bool) (R : DataFrame),
    find_duplicate_records ["Test2"; "Test3"] (Some keep_false)
      (set_dataframe test_frame __init__)
    = (set_dataframe test_frame __init__, Ok R) /\
    (forall n, n < 4 ->
               (marked n = true <->
                repeats_at keep_false test_frame ["Test2"; "Test3"] n)) /\
    index R = List.length (filter marked (seq 0 4)) /\
    columns R
    = map (fun kc =>
             (fst kc,
              map (fun n => nth n (snd kc) None) (filter marked (seq 0 4))))
          (columns test_frame).
Proof.
  apply (find_duplicate_records_rows (set_dataframe test_frame __init__)
           ["Test2"; "Test3"] (Some keep_false)).
  - exact rectangular_test_frame.
  - discriminate.
  - intros c [<-|[<-|[]]]; reflexivity.
Defined.

(** ** Descriptors are backed by closures *)

Lemma reachable_live_reachable (self : FileFrame) :
  reachable_live self -> reachable self.
Proof.
  induction 1; [apply reach_init|now apply reach_add|now apply reach_remove
                |now apply reach_read_dict|now apply reach_read_excel
                |now apply reach_read_csv|now apply reach_read_fwf].
Qed.

Lemma reachable_NoDup (self : FileFrame) :
  reachable self -> NoDup (_constraint_details self).
Proof.
  apply (reachable_details_ind (fun l => NoDup l)).
  - constructor.
  - intros f s IH V. apply NoDup_snoc; [exact IH|].
    now apply first_verdict_none_not_in.
  - intros q l IH. now apply NoDup_filter.
Qed.

Lemma backed_after_load (parsed : result DataFrame) (self : FileFrame)
    (P : list Closure -> list _Constraint -> Prop) :
  P (_constraints self) (_constraint_details self) ->
  P (_constraints (fst (load parsed self)))
    (_constraint_details (fst (load parsed self))).
Proof.
  destruct (load_registry parsed self) as [A B]. now rewrite A, B.
Qed.

(** X17: in every state reached with live closure objects, each registered
    descriptor is the descriptor of a registered closure, so the descriptor
    list is never longer than the closure list: validation never skips a
    constraint that the registry still describes. *)
Theorem descriptors_backed_by_closures (self : FileFrame) :
  reachable_live self ->
  (forall d, In d (_constraint_details self) ->
             exists g, In g (_constraints self) /\
                       _get_constraint_closure_function_details g = Ok d) /\
  List.length (_constraint_details self) <= List.length (_constraints self).
Proof.
  intro R.
  assert (B : forall d, In d (_constraint_details self) ->
                        exists g, In g (_constraints self) /\
                                  descriptor (code g) = d).
  { induction R as [|f self R IH L|f self R IH L|d0 self R IH|p self R IH
                    |p self R IH|p self R IH].
    - intros d [].
    - rewrite add_constraint_eq.
      destruct (first_verdict _ _); cbn [fst]; [exact IH|].
      cbn [_constraints _constraint_details]. intros d Hd.
      apply in_app_iff in Hd as [Hd|[<-|[]]].
      + destruct (IH d Hd) as [g [Hg E]]. exists g. split; [|exact E].
        apply in_app_iff. now left.
      + exists f. split; [|reflexivity]. apply in_app_iff. right. now left.
    - rewrite remove_constraint_eq. cbn [fst _constraints _constraint_details].
      intros d Hd. apply filter_In in Hd as [Hd N].
      apply negb_true_iff, _Constraint_eqb_neq in N.
      destruct (IH d Hd) as [g [Hg E]]. exists g. split; [|exact E].
      apply filter_In. split; [exact Hg|]. unfold func_ne.
      apply negb_true_iff, Nat.eqb_neq. intro Q.
      apply N. rewrite <- E. now rewrite (L g Hg Q).
    - rewrite read_dict_load.
      apply (backed_after_load (DataFrame_of_dict d0) self
               (fun cs ds => forall d, In d ds ->
                  exists g, In g cs /\ descriptor (code g) = d) IH).
    - apply (backed_after_load p self
               (fun cs ds => forall d, In d ds ->
                  exists g, In g cs /\ descriptor (code g) = d) IH).
    - apply (backed_after_load p self
               (fun cs ds => forall d, In d ds ->
                  exists g, In g cs /\ descriptor (code g) = d) IH).
    - apply (backed_after_load p self
               (fun cs ds => forall d, In d ds ->
                  exists g, In g cs /\ descriptor (code g) = d) IH). }
  split.
  - intros d Hd. destruct (B d Hd) as [g [Hg E]]. exists g.
    split; [exact Hg|]. now rewrite details_descriptor, E.
  - rewrite <- (length_map (fun g => descriptor (code g)) (_constraints self)).
    apply NoDup_incl_length.
    + apply reachable_NoDup. now apply reachable_live_reachable.
    + intros d Hd. destruct (B d Hd) as [g [Hg E]]. apply in_map_iff.
      now exists g.
Qed.

Lemma descriptors_backed_by_closures_witness :
  _constraint_details registry_with_lost_descriptor
  = [descriptor (unique_constraint ["City"])] /\
  (exists g, In g (_constraints registry_with_lost_descriptor) /\
             _get_constraint_closure_function_details g
             = Ok (descriptor (unique_constraint ["City"]))) /\
  List.length (_constraint_details registry_with_lost_descriptor)
  <= List.length (_constraints registry_with_lost_descriptor).
Proof.
  assert (L : reachable_live registry_with_lost_descriptor).
  { change registry_with_lost_descriptor
      with (fst (remove_constraint (built (constraint_not_null 3 "Id"))
              (fst (add_constraint (built (constraint_unique 2 ["City"]))
                 (fst (add_constraint (built (constraint_not_null 1 "Id"))
                                      __init__)))))).
    apply live_remove.
    - apply live_add.
      + apply live_add; [apply live_init|]. intros g [].
      + intros g [<-|[]]. discriminate.
    - intros g [<-|[<-|[]]]; discriminate. }
  destruct (descriptors_backed_by_closures registry_with_lost_descriptor L)
    as [B Len].
  split; [reflexivity|]. split; [|exact Len].
  apply B. left. reflexivity.
Defined.

(** ** Validation without default values does not depend on the order *)

Lemma run_closures_all_return (l : list Closure) (T : DataFrame) :
  forallb (fun f => negb (is_default_value (code f))) l = true ->
  (snd (run_closures l T) = Ok tt <->
   forall f, In f l -> snd (call (code f) T) = Ok tt).
Proof.
  induction l as [|f l IH]; cbn [forallb].
  - intros _. split; [intros _ f []|reflexivity].
  - intro H. apply andb_true_iff in H as [Hf Hl]. apply negb_true_iff in Hf.
    cbn [run_closures for_each]. unfold bind.
    pose proof (call_keeps_frame (code f) T Hf) as K.
    destruct (call (code f) T) as [T1 [[]|e]] eqn:C; simpl in K; subst T1.
    + fold (run_closures l). rewrite (IH Hl). split.
      * intros H g [<-|Hg]; [now rewrite C|now apply H].
      * intros H g Hg. apply H. now right.
    + split; [discriminate|].
      intro H. specialize (H f (or_introl eq_refl)). rewrite C in H.
      discriminate H.
Qed.

(** X18: when no default-value closure is registered, validation returns
    exactly when every registered closure, taken alone, returns on the held
    frame; so whether it returns does not depend on the order in which the
    constraints were registered. *)
Theorem validation_without_defaults_any_order (self : FileFrame) :
  forallb (fun f => negb (is_default_value (code f))) (_constraints self)
  = true ->
  (snd (_validate_constraints self) = Ok tt <->
   forall f, In f (_constraints self) ->
             snd (call (code f) (_dataframe self)) = Ok tt)
  /\
  (forall other : FileFrame,
      Permutation (_constraints self) (_constraints other) ->
      _dataframe other = _dataframe self ->
      (snd (_validate_constraints self) = Ok tt <->
       snd (_validate_constraints other) = Ok tt)).
Proof.
  intro H.
  assert (V : forall s,
             forallb (fun f => negb (is_default_value (code f)))
                     (_constraints s) = true ->
             (snd (_validate_constraints s) = Ok tt <->
              forall f, In f (_constraints s) ->
                        snd (call (code f) (_dataframe s)) = Ok tt)).
  { intros s Hs. rewrite validate_eq. unfold on_dataframe.
    pose proof (run_closures_all_return _ (_dataframe s) Hs) as K.
    destruct (run_closures (_constraints s) (_dataframe s)) as [T r].
    exact K. }
  split; [now apply V|].
  intros other P E.
  assert (Ho : forallb (fun f => negb (is_default_value (code f)))
                       (_constraints other) = true).
  { rewrite forallb_forall in *. intros f Hf. apply H.
    apply Permutation_in with (_constraints other);
      [now apply Permutation_sym|exact Hf]. }
  rewrite (V self H), (V other Ho), E. split; intros K f Hf; apply K.
  - apply Permutation_in with (_constraints other);
      [now apply Permutation_sym|exact Hf].
  - now apply Permutation_in with (_constraints self).
Qed.

Lemma validation_without_defaults_any_order_witness :
  (snd (_validate_constraints check_then_not_null) = Ok tt <->
   forall f, In f (_constraints check_then_not_null) ->
             snd (call (code f) test_frame) = Ok tt)
  /\
  (snd (_validate_constraints check_then_not_null) = Ok tt <->
   snd (_validate_constraints not_null_then_check) = Ok tt)
  /\
  _constraints check_then_not_null
  = [built (constraint_check 1 "Age" ">" (SInt 10));
     built (constraint_not_null 2 "Id")]
  /\
  _constraints not_null_then_check
  = [built (constraint_not_null 2 "Id");
     built (constraint_check 1 "Age" ">" (SInt 10))].
Proof.
  destruct (validation_without_defaults_any_order check_then_not_null eq_refl)
    as [A B].
  split; [exact A|]. split; [|split; reflexivity].
  apply (B not_null_then_check); [|reflexivity].
  apply (perm_swap (built (constraint_not_null 2 "Id"))
                   (built (constraint_check 1 "Age" ">" (SInt 10))) []).
Defined.

(** ** A registered default heals the column for good *)






